(** * huntr: the incremental chain-scanning and scoring pipeline

    A shallow embedding of [app/api/tokens/route.ts] (the scan handler [GET],
    [processPoolEvent], [getTokenMetadata], [classifyTokenType],
    [calculateTokenScore]) and of the helpers of [lib/database.ts]
    ([saveToken], [getTopTokens], [updateTokenAges], [cleanupOldTokens]),
    followed by the properties of the specification that concern them. *)

From Stdlib Require Import ZArith QArith Bool List Ascii String Lia.
From Stdlib Require Import Sorted Permutation Lqa DecimalString.
Import ListNotations.

Open Scope string_scope.
Open Scope Z_scope.

(** ** JavaScript numbers

    A [number] is an IEEE double.  Every finite double is a rational, so the
    finite ones are carried as [Q]; the two infinities and NaN are kept apart.
    Comparisons are exact on this representation.  The arithmetic below does
    not round: the pipeline only feeds it the mock market metrics. *)

Inductive number : Type :=
| NaN
| NegInf
| Fin (q : Q)
| PosInf.

Definition num (z : Z) : number := Fin (inject_Z z).

(** [x < y] of JavaScript: false as soon as one side is NaN. *)
Definition js_lt (x y : number) : bool :=
  match x, y with
  | NaN, _ | _, NaN => false
  | _, NegInf => false
  | NegInf, _ => true
  | PosInf, _ => false
  | Fin _, PosInf => true
  | Fin a, Fin b => match (a ?= b)%Q with Lt => true | _ => false end
  end.

(** [x <= y] of JavaScript. *)
Definition js_le (x y : number) : bool :=
  match x, y with
  | NaN, _ | _, NaN => false
  | NegInf, _ => true
  | _, PosInf => true
  | _, NegInf => false
  | PosInf, _ => false
  | Fin a, Fin b => match (a ?= b)%Q with Gt => false | _ => true end
  end.

Definition js_gt (x y : number) : bool := js_lt y x.
Definition js_ge (x y : number) : bool := js_le y x.

Definition q_sign (q : Q) : comparison := (q ?= 0)%Q.

(** [x + y]: NaN is contagious, opposite infinities cancel to NaN. *)
Definition js_add (x y : number) : number :=
  match x, y with
  | NaN, _ | _, NaN => NaN
  | PosInf, NegInf | NegInf, PosInf => NaN
  | PosInf, _ | _, PosInf => PosInf
  | NegInf, _ | _, NegInf => NegInf
  | Fin a, Fin b => Fin (a + b)
  end.

Definition inf_of_sign (c : comparison) : number :=
  match c with
  | Gt => PosInf
  | Lt => NegInf
  | Eq => NaN
  end.

Definition flip_sign (c : comparison) : comparison := CompOpp c.

(** [x * y]: an infinity times zero is NaN, otherwise the signs multiply. *)
Definition js_mul (x y : number) : number :=
  match x, y with
  | NaN, _ | _, NaN => NaN
  | PosInf, PosInf | NegInf, NegInf => PosInf
  | PosInf, NegInf | NegInf, PosInf => NegInf
  | PosInf, Fin b | Fin b, PosInf => inf_of_sign (q_sign b)
  | NegInf, Fin b | Fin b, NegInf => inf_of_sign (flip_sign (q_sign b))
  | Fin a, Fin b => Fin (a * b)
  end.

(** ** ScoreCalculator: [calculateTokenScore] *)

Record Metrics : Type := mkMetrics {
  ageMinutes : number;
  liquidityUSD : number;
  priceChangePercent : number
}.

(** The running [score] of the source is threaded through the three
    if-chains; it only ever holds sums of the integer literals, so it is an
    integer, and [Math.min(30, score)] is [Z.min]. *)
Definition calculateTokenScore (metrics : Metrics) : Z :=
  let score := 0 in
  (* Age factor (newer = better, max 10 points) *)
  let score :=
    if js_lt (ageMinutes metrics) (num 5) then score + 10
    else if js_lt (ageMinutes metrics) (num 15) then score + 8
    else if js_lt (ageMinutes metrics) (num 30) then score + 5
    else score in
  (* Liquidity factor (higher = better, max 10 points) *)
  let score :=
    if js_gt (liquidityUSD metrics) (num 20000) then score + 10
    else if js_gt (liquidityUSD metrics) (num 10000) then score + 8
    else if js_gt (liquidityUSD metrics) (num 5000) then score + 6
    else if js_gt (liquidityUSD metrics) (num 2000) then score + 3
    else score in
  (* Price movement factor (higher = better, max 10 points) *)
  let score :=
    if js_gt (priceChangePercent metrics) (num 100) then score + 10
    else if js_gt (priceChangePercent metrics) (num 50) then score + 8
    else if js_gt (priceChangePercent metrics) (num 25) then score + 6
    else if js_gt (priceChangePercent metrics) (num 10) then score + 3
    else score in
  Z.min 30 score.

(** The three sub-score tables, as the specification words them. *)
Definition age_subscore (age : number) : Z :=
  if js_lt age (num 5) then 10
  else if js_lt age (num 15) then 8
  else if js_lt age (num 30) then 5
  else 0.

Definition liquidity_subscore (liquidity : number) : Z :=
  if js_gt liquidity (num 20000) then 10
  else if js_gt liquidity (num 10000) then 8
  else if js_gt liquidity (num 5000) then 6
  else if js_gt liquidity (num 2000) then 3
  else 0.

Definition momentum_subscore (change : number) : Z :=
  if js_gt change (num 100) then 10
  else if js_gt change (num 50) then 8
  else if js_gt change (num 25) then 6
  else if js_gt change (num 10) then 3
  else 0.

(** ** TokenClassifier: [classifyTokenType] *)

(** Truthiness of a JavaScript string: every string but the empty one. *)
Definition truthy (s : string) : bool :=
  match s with
  | EmptyString => false
  | String _ _ => true
  end.

Definition classifyTokenType (hookData : string) (fee : Z) : string :=
  if fee =? 3000 then "BASE_APP"
  else if fee =? 10000 then "ZORA"
  else if truthy hookData && negb (hookData =? "0x")%string then "HOOKED"
  else "STANDARD".

(** The event decoder hands [hookData] over as a hex string: ["0x"] followed
    by two lower-case digits per byte of the payload. *)
Definition hex_digit (n : N) : ascii :=
  match n with
  | 0%N => "0" | 1%N => "1" | 2%N => "2" | 3%N => "3"
  | 4%N => "4" | 5%N => "5" | 6%N => "6" | 7%N => "7"
  | 8%N => "8" | 9%N => "9" | 10%N => "a" | 11%N => "b"
  | 12%N => "c" | 13%N => "d" | 14%N => "e" | _ => "f"
  end%char.

Fixpoint hex_digits (payload : list Byte.byte) : string :=
  match payload with
  | [] => EmptyString
  | b :: rest =>
      String (hex_digit (N.div (Byte.to_N b) 16))
        (String (hex_digit (N.modulo (Byte.to_N b) 16)) (hex_digits rest))
  end.

Definition toHex (payload : list Byte.byte) : string :=
  ("0x" ++ hex_digits payload)%string.

(** The classifier of the specification, over the fee tier and the raw bytes
    of the hook payload: the first rule that matches wins. *)
Inductive TokenTag : Type := STANDARD | HOOKED | BASE_APP | ZORA.

Definition tag_name (t : TokenTag) : string :=
  match t with
  | STANDARD => "STANDARD"
  | HOOKED => "HOOKED"
  | BASE_APP => "BASE_APP"
  | ZORA => "ZORA"
  end.

Definition classify_spec (feeTier : Z) (hookPayload : list Byte.byte) : TokenTag :=
  if feeTier =? 3000 then BASE_APP
  else if feeTier =? 10000 then ZORA
  else match hookPayload with
       | _ :: _ => HOOKED
       | [] => STANDARD
       end.

(** ** Strings

    Addresses are ASCII hex strings; [toLowerCase] folds the letters A-Z and
    leaves every other character alone. *)

Definition lower_ascii (c : ascii) : ascii :=
  let n := N_of_ascii c in
  if (N.leb 65 n && N.leb n 90)%bool then ascii_of_N (n + 32) else c.

Fixpoint toLowerCase (s : string) : string :=
  match s with
  | EmptyString => EmptyString
  | String c rest => String (lower_ascii c) (toLowerCase rest)
  end.

(** ** The store: table [tokens] of lib/database.ts *)

(** Timestamps are seconds; the two horizons of the queries are intervals in
    the same unit. *)
Definition two_hours : Z := 7200.
Definition four_hours : Z := 14400.

Module Row.
(** One row of [tokens], a field per column. *)
Record t : Type := mk {
  address : string;
  symbol : string;
  name : string;
  pool_address : string;
  score : Z;
  liquidity : number;
  price : number;
  price_change : number;
  age_minutes : number;
  market_cap : number;
  volume_24h : number;
  is_spiking_now : bool;
  token_type : string;
  detected_at : Z;
  last_updated : Z
}.
End Row.

Module TokenData.
(** The argument object of [saveToken]. *)
Record t : Type := mk {
  address : string;
  symbol : string;
  name : string;
  poolAddress : string;
  score : Z;
  liquidity : number;
  price : number;
  priceChange : number;
  ageMinutes : number;
  marketCap : number;
  volume24h : number;
  isSpikingNow : bool;
  tokenType : option string
}.
End TokenData.

(** [tokenData.tokenType || "UNKNOWN"]: a missing or empty tag is falsy. *)
Definition tokenType_or_unknown (tokenType : option string) : string :=
  match tokenType with
  | Some s => if truthy s then s else "UNKNOWN"
  | None => "UNKNOWN"
  end.

(** Modelled from the spec: the declaration of table [tokens] is not part of
    the source, so the defaults of the two columns the INSERT leaves out are
    taken from the data model ("detectedAt: timestamp set once (first insert
    only)", "lastUpdated: timestamp set on every write"): both start at the
    time of the insert. *)
Definition inserted_row (now : Z) (d : TokenData.t) : Row.t :=
  {| Row.address := TokenData.address d;
     Row.symbol := TokenData.symbol d;
     Row.name := TokenData.name d;
     Row.pool_address := TokenData.poolAddress d;
     Row.score := TokenData.score d;
     Row.liquidity := TokenData.liquidity d;
     Row.price := TokenData.price d;
     Row.price_change := TokenData.priceChange d;
     Row.age_minutes := TokenData.ageMinutes d;
     Row.market_cap := TokenData.marketCap d;
     Row.volume_24h := TokenData.volume24h d;
     Row.is_spiking_now := TokenData.isSpikingNow d;
     Row.token_type := tokenType_or_unknown (TokenData.tokenType d);
     Row.detected_at := now;
     Row.last_updated := now |}.

(** [DO UPDATE SET ...] of [saveToken]: the eight EXCLUDED columns and
    [last_updated = CURRENT_TIMESTAMP]; every column the SET list does not
    name keeps the value of the existing row [old]. *)
Definition conflict_update (now : Z) (d : TokenData.t) (old : Row.t) : Row.t :=
  {| Row.address := Row.address old;
     Row.symbol := Row.symbol old;
     Row.name := Row.name old;
     Row.pool_address := Row.pool_address old;
     Row.score := TokenData.score d;
     Row.liquidity := TokenData.liquidity d;
     Row.price := TokenData.price d;
     Row.price_change := TokenData.priceChange d;
     Row.age_minutes := TokenData.ageMinutes d;
     Row.market_cap := TokenData.marketCap d;
     Row.volume_24h := TokenData.volume24h d;
     Row.is_spiking_now := TokenData.isSpikingNow d;
     Row.token_type := Row.token_type old;
     Row.detected_at := Row.detected_at old;
     Row.last_updated := now |}.

(** [WHERE detected_at > NOW() - INTERVAL '2 hours']. *)
Definition fresh (now : Z) (r : Row.t) : bool :=
  now - two_hours <? Row.detected_at r.

(** [ORDER BY score DESC, detected_at DESC]: [ranks_before a b] when [a]
    must come strictly before [b]. *)
Definition ranks_before (a b : Row.t) : bool :=
  (Row.score b <? Row.score a)
  || ((Row.score a =? Row.score b) && (Row.detected_at b <? Row.detected_at a)).

Fixpoint place (r : Row.t) (sorted : list Row.t) : list Row.t :=
  match sorted with
  | [] => [r]
  | x :: rest => if ranks_before x r then x :: place r rest else r :: sorted
  end.

Definition order_rows (rows : list Row.t) : list Row.t :=
  fold_right place [] rows.

(** The SELECT of [getTopTokens]. The select list renames the columns to the
    camel-case keys of the response and adds [id] (the address again) and the
    display string [age]; the pipeline reads [address] only, so the result
    rows are the table rows themselves. *)
Definition select_top (limit : nat) (now : Z) (rows : list Row.t) : list Row.t :=
  firstn limit (order_rows (filter (fresh now) rows)).

(** The UPDATE of [updateTokenAges]:
    [age_minutes = EXTRACT(EPOCH FROM (NOW() - detected_at)) / 60] and
    [last_updated = NOW()] on the rows inside the two-hour horizon.  The
    declaration of the table is not part of the sources: the age is kept as
    the expression computes it, before any coercion to the type of the
    column. *)
Definition aged (now : Z) (r : Row.t) : Row.t :=
  {| Row.address := Row.address r;
     Row.symbol := Row.symbol r;
     Row.name := Row.name r;
     Row.pool_address := Row.pool_address r;
     Row.score := Row.score r;
     Row.liquidity := Row.liquidity r;
     Row.price := Row.price r;
     Row.price_change := Row.price_change r;
     Row.age_minutes := Fin (inject_Z (now - Row.detected_at r) / 60);
     Row.market_cap := Row.market_cap r;
     Row.volume_24h := Row.volume_24h r;
     Row.is_spiking_now := Row.is_spiking_now r;
     Row.token_type := Row.token_type r;
     Row.detected_at := Row.detected_at r;
     Row.last_updated := now |}.

Definition update_ages (now : Z) (rows : list Row.t) : list Row.t :=
  map (fun r => if fresh now r then aged now r else r) rows.

(** The DELETE of [cleanupOldTokens]:
    [WHERE detected_at < NOW() - INTERVAL '4 hours']. *)
Definition delete_old (now : Z) (rows : list Row.t) : list Row.t :=
  filter (fun r => negb (Row.detected_at r <? now - four_hours)) rows.

(** ** The chain *)

Definition UNISWAP_V4_POOL_MANAGER : string := "0x38EB8B22Df3Ae7fb21e92881151B365Df14ba967".
Definition BASE_WETH : string := "0x4200000000000000000000000000000000000006".
Definition BASE_USDC : string := "0x833589fCD6eDb6E08f4c7C32D4f71b54bdA02913".

(** One decoded [Initialize] event of the pool manager: the block it sits in
    and the [args] that [processPoolEvent] destructures. *)
Record PoolLog : Type := mkPoolLog {
  blockNumber : Z;
  poolId : string;
  currency0 : string;
  currency1 : string;
  fee : Z;
  hookData : string
}.

(** An entry of an ABI as the client library receives it.  A parsed item
    carries a [type] and, for a function, a [stateMutability]; a
    human-readable signature that was never parsed is a bare string and
    carries neither. *)
Inductive AbiItem : Type :=
| Signature (text : string)
| AbiFunction (name stateMutability : string)
| AbiEvent (name : string).

(** [ERC20_ABI]: four signature strings, handed over as they are. *)
Definition ERC20_ABI : list AbiItem :=
  [ Signature "function name() view returns (string)";
    Signature "function symbol() view returns (string)";
    Signature "function decimals() view returns (uint8)";
    Signature "function totalSupply() view returns (uint256)" ].

(** [POOL_INITIALIZE_EVENT]: the one item that goes through [parseAbiItem]. *)
Definition POOL_INITIALIZE_EVENT : AbiItem := AbiEvent "Initialize".

(** The test [getContract] applies to each entry of the ABI to decide
    whether the handle gets a [read] member: a function whose
    [stateMutability] is [view] or [pure]. *)
Definition is_read_function (item : AbiItem) : bool :=
  match item with
  | AbiFunction _ stateMutability =>
      (stateMutability =? "view")%string || (stateMutability =? "pure")%string
  | _ => false
  end.

Module GetContractEventsParameters.
(** The object literal handed to [client.getContractEvents]; a member the
    caller leaves out is [None]. *)
Record t : Type := mk {
  abi : option (list AbiItem);
  address : string;
  event : option AbiItem;
  fromBlock : Z;
  toBlock : Z
}.
End GetContractEventsParameters.

(** A contract read either resolves to a value or rejects. *)
Inductive ReadResult (A : Type) : Type :=
| Resolves (a : A)
| Rejects.
Arguments Resolves {A} a.
Arguments Rejects {A}.

(** What the three ERC20 view functions of one contract answer. *)
Record Erc20 : Type := mkErc20 {
  read_name : ReadResult string;
  read_symbol : ReadResult string;
  read_decimals : ReadResult Z
}.

(** The handle [getContract] returns: its [read] member exists only when
    the ABI declares a read function. *)
Record Contract : Type := mkContract {
  contract_read : option Erc20
}.

Module TokenMetadata.
(** The object [getTokenMetadata] returns. *)
Record t : Type := mk {
  name : string;
  symbol : string;
  decimals : Z
}.
End TokenMetadata.

(** ** The world a scan runs in

    Everything the handler reads or writes: the table, the clock behind
    [NOW()], the chain (head, events, contracts), the module variable
    [lastBlockProcessed], and two oracles.  [faults] decides, call by call,
    whether the next store statement or RPC request fails ([true]); once it is
    used up every call succeeds.  [entropy] feeds [Math.random()].  The clock
    stands still during one invocation. *)
Record World : Type := mkWorld {
  tokens : list Row.t;
  clock : Z;
  chainHead : Z;
  chainLogs : list PoolLog;
  contracts : string -> Erc20;
  faults : list bool;
  entropy : list Q;
  lastBlockProcessed : Z
}.

Definition set_tokens (rows : list Row.t) (w : World) : World :=
  mkWorld rows (clock w) (chainHead w) (chainLogs w) (contracts w)
          (faults w) (entropy w) (lastBlockProcessed w).

Definition set_faults (f : list bool) (w : World) : World :=
  mkWorld (tokens w) (clock w) (chainHead w) (chainLogs w) (contracts w)
          f (entropy w) (lastBlockProcessed w).

Definition set_entropy (e : list Q) (w : World) : World :=
  mkWorld (tokens w) (clock w) (chainHead w) (chainLogs w) (contracts w)
          (faults w) e (lastBlockProcessed w).

Definition set_lastBlockProcessed (b : Z) (w : World) : World :=
  mkWorld (tokens w) (clock w) (chainHead w) (chainLogs w) (contracts w)
          (faults w) (entropy w) b.

(** ** Effects: state and exceptions *)

Inductive Error : Type :=
| StoreError      (* db.query threw *)
| ChainError      (* an RPC request of the client threw *)
| ReadError       (* a contract read rejected *)
| TypeError.      (* a member of [undefined] was used *)

Inductive Outcome (A : Type) : Type :=
| Ret (a : A)
| Throw (e : Error).
Arguments Ret {A} a.
Arguments Throw {A} e.

(** An async function of the source: it runs on a world and either returns or
    throws; what it changed before throwing stays changed. *)
Definition M (A : Type) : Type := World -> Outcome A * World.

Definition ret {A} (a : A) : M A := fun w => (Ret a, w).

Definition throw {A} (e : Error) : M A := fun w => (Throw e, w).

Definition bind {A B} (m : M A) (k : A -> M B) : M B :=
  fun w =>
    match m w with
    | (Ret a, w') => k a w'
    | (Throw e, w') => (Throw e, w')
    end.

(** [try { m } catch (error) { handler error }]. *)
Definition try_catch {A} (m : M A) (handler : Error -> M A) : M A :=
  fun w =>
    match m w with
    | (Ret a, w') => (Ret a, w')
    | (Throw e, w') => handler e w'
    end.

Declare Scope effect_scope.
Delimit Scope effect_scope with eff.
Notation "x <- m ;; k" := (bind m (fun x => k))
  (at level 61, m at next level, right associativity) : effect_scope.
Notation "m ;; k" := (bind m (fun _ => k))
  (at level 61, right associativity) : effect_scope.
Open Scope effect_scope.

(** One call that leaves the process: the next flag of [faults] says whether
    it fails with [e]. *)
Definition external_call (e : Error) : M unit :=
  fun w =>
    (if hd false (faults w) then Throw e else Ret tt,
     set_faults (tl (faults w)) w).

(** [Math.random()]: the next value of [entropy], 0 once it is used up. *)
Definition random : M number :=
  fun w => (Ret (Fin (hd 0%Q (entropy w))), set_entropy (tl (entropy w)) w).

(** [db.query] with a statement that only reads the table. *)
Definition db_select {A} (statement : Z -> list Row.t -> A) : M A :=
  external_call StoreError ;;
  fun w => (Ret (statement (clock w) (tokens w)), w).

(** [db.query] with a statement that rewrites the table; a statement that
    fails changes nothing. *)
Definition db_execute (statement : Z -> list Row.t -> list Row.t) : M unit :=
  external_call StoreError ;;
  fun w => (Ret tt, set_tokens (statement (clock w) (tokens w)) w).

(** ** The dashboard helpers of app/page.tsx *)

Definition getScoreColor (score : number) : string :=
  if js_ge score (num 25) then "text-green-400"
  else if js_ge score (num 15) then "text-yellow-400"
  else "text-red-400".

Definition getScoreBadgeColor (score : number) : string :=
  if js_ge score (num 25) then "bg-green-500/20 text-green-400 border-green-500/30"
  else if js_ge score (num 15) then "bg-yellow-500/20 text-yellow-400 border-yellow-500/30"
  else "bg-red-500/20 text-red-400 border-red-500/30".

(** The template string interpolates the address as it is. *)
Definition getUniswapTradeUrl (tokenAddress : string) : string :=
  ("https://app.uniswap.org/#/swap?outputCurrency=" ++ tokenAddress ++ "&chain=base")%string.

(** ** The connection pool behind [db.query] (class [Database])

    The pool is seen through the number of clients that are checked out.
    [flags] decides, call by call, whether [pool.connect()] and
    [client.query] fail. *)
Module Database.

Record Pool : Type := mkPool {
  checkedOut : nat;
  flags : list bool
}.

Inductive QueryOutcome : Type :=
| Rows          (* client.query resolved *)
| ConnectFailed (* pool.connect() rejected *)
| QueryFailed.  (* client.query rejected *)

(** [pool.connect()]: hands out a client unless it fails. *)
Definition connect (p : Pool) : bool * Pool :=
  if hd false (flags p)
  then (false, mkPool (checkedOut p) (tl (flags p)))
  else (true, mkPool (S (checkedOut p)) (tl (flags p))).

(** [client.query(text, params)]. *)
Definition client_query (p : Pool) : bool * Pool :=
  (negb (hd false (flags p)), mkPool (checkedOut p) (tl (flags p))).

(** [client.release()]. *)
Definition release (p : Pool) : Pool :=
  mkPool (Nat.pred (checkedOut p)) (flags p).

(** [query]: connect, then [try { client.query } finally { client.release() }];
    a failed connect throws before the try block is entered. *)
Definition query (p : Pool) : QueryOutcome * Pool :=
  match connect p with
  | (false, p1) => (ConnectFailed, p1)
  | (true, p1) =>
      let (ok, p2) := client_query p1 in
      let p3 := release p2 in
      (if ok then Rows else QueryFailed, p3)
  end.

(** [getClient]: a client handed to the caller, who has to release it. *)
Definition getClient (p : Pool) : bool * Pool := connect p.

End Database.

(** ** The mock chart of app/page.tsx *)

Definition js_neg (x : number) : number :=
  match x with
  | NaN => NaN
  | NegInf => PosInf
  | Fin a => Fin (- a)
  | PosInf => NegInf
  end.

(** [x - y]. *)
Definition js_sub (x y : number) : number := js_add x (js_neg y).

(** [Math.max(x, y)]: NaN as soon as one side is NaN. *)
Definition js_max (x y : number) : number :=
  match x, y with
  | NaN, _ | _, NaN => NaN
  | _, _ => if js_lt x y then y else x
  end.

(** An integer as the template string prints it. *)
Definition decimal (z : Z) : string := NilZero.string_of_int (Z.to_int z).

Module ChartPoint.
Record t : Type := mk {
  time : string;
  price : number;
  liquidity : number
}.
End ChartPoint.

(** The body of [for (let i = 0; i < 30; i++)], [remaining] rounds from
    counter [i] on; [data.push] appends. *)
Fixpoint chartLoop (remaining : nat) (i : Z) (currentPrice : number)
    (data : list ChartPoint.t) : M (list ChartPoint.t) :=
  match remaining with
  | O => ret data
  | S rest =>
      r1 <- random ;;
      let change := js_mul (js_sub r1 (Fin (2 # 5))) (Fin (1 # 10)) in
      let currentPrice :=
        js_max (js_mul currentPrice (js_add (num 1) change)) (Fin (1 # 10000)) in
      r2 <- random ;;
      chartLoop rest (i + 1) currentPrice
                (data ++ [ChartPoint.mk (decimal (30 - i) ++ "m")%string currentPrice
                                        (js_max (js_mul r2 (num 50)) (num 5))])
  end.

Definition generateMockChartData (basePrice : number) : M (list ChartPoint.t) :=
  data <- chartLoop 30 0 (js_mul basePrice (Fin (1 # 2))) [] ;;
  ret (rev data).

Section Pipeline.

(** The declaration of table [tokens] is not part of the source: the unique
    constraint on [address] that [ON CONFLICT (address)] refers to decides
    when two addresses are the same key.  That comparison is a parameter;
    nothing is assumed about it. *)
Variable same_address : string -> string -> bool.

(** *** lib/database.ts *)

(** The INSERT ... ON CONFLICT (address) DO UPDATE of [saveToken]. *)
Definition upsert (d : TokenData.t) (now : Z) (rows : list Row.t) : list Row.t :=
  if existsb (fun r => same_address (Row.address r) (TokenData.address d)) rows
  then map (fun r =>
              if same_address (Row.address r) (TokenData.address d)
              then conflict_update now d r else r) rows
  else rows ++ [inserted_row now d].

(** [saveToken] resolves to the query result, the rows of the RETURNING
    clause, which no caller reads. *)
Definition saveToken (tokenData : TokenData.t) : M unit :=
  db_execute (upsert tokenData).

Definition getTopTokens (limit : nat) : M (list Row.t) :=
  db_select (select_top limit).

Definition updateTokenAges : M unit := db_execute update_ages.

Definition cleanupOldTokens : M unit := db_execute delete_old.

(** *** app/api/tokens/route.ts *)

(** [client.getBlockNumber()]. *)
Definition getBlockNumber : M Z :=
  external_call ChainError ;;
  fun w => (Ret (chainHead w), w).

(** [client.getContractEvents].  The library picks the events to ask for
    out of the [abi] member ([abi.filter], or a lookup of [eventName] in it)
    before it sends anything: without that member the call throws at once.
    With it, the logs of the blocks [fromBlock .. toBlock] are fetched. *)
Definition getContractEvents (parameters : GetContractEventsParameters.t)
  : M (list PoolLog) :=
  match GetContractEventsParameters.abi parameters with
  | None => throw TypeError
  | Some _ =>
      external_call ChainError ;;
      fun w =>
        (Ret (filter (fun l =>
                        (GetContractEventsParameters.fromBlock parameters <=? blockNumber l)
                        && (blockNumber l <=? GetContractEventsParameters.toBlock parameters))
                     (chainLogs w)), w)
  end.

(** [getContract]: the handle on the ERC20 at [tokenAddress].  Its [read]
    member is built only when some entry of [abi] is a read function. *)
Definition getContract (tokenAddress : string) (abi : list AbiItem) : M Contract :=
  fun w =>
    (Ret (mkContract (if existsb is_read_function abi
                      then Some (contracts w tokenAddress)
                      else None)), w).

(** [tokenContract.read.f()]: the member access and the call, which give
    the promise of the read.  On a handle without [read] the access itself
    throws, before there is a promise to attach a handler to. *)
Definition read_call {A} (tokenContract : Contract) (f : Erc20 -> ReadResult A) : M (ReadResult A) :=
  match contract_read tokenContract with
  | Some functions => ret (f functions)
  | None => throw TypeError
  end.

(** Awaiting the promise of a read: it resolves or rejects. *)
Definition read {A} (result : ReadResult A) : M A :=
  match result with
  | Resolves a => ret a
  | Rejects => throw ReadError
  end.

(** [promise.catch(() => fallback)]. *)
Definition catch_with {A} (promise : M A) (fallback : A) : M A :=
  try_catch promise (fun _ => ret fallback).

Definition getTokenMetadata (tokenAddress : string) : M (option TokenMetadata.t) :=
  try_catch
    (tokenContract <- getContract tokenAddress ERC20_ABI ;;
     (* the three elements of the array given to Promise.all, in order *)
     namePromise <- read_call tokenContract read_name ;;
     symbolPromise <- read_call tokenContract read_symbol ;;
     decimalsPromise <- read_call tokenContract read_decimals ;;
     name <- catch_with (read namePromise) "Unknown Token" ;;
     symbol <- catch_with (read symbolPromise) "UNK" ;;
     decimals <- catch_with (read decimalsPromise) 18 ;;
     (* Basic validation *)
     if (Nat.ltb 20 (String.length symbol) || Nat.ltb 100 (String.length name))%bool
     then ret None
     else ret (Some (TokenMetadata.mk name symbol decimals)))
    (fun error => ret None).

(** The token an event introduces: the leg that is not the first reference
    asset found. *)
Definition candidate (log : PoolLog) : string :=
  if ((currency0 log =? BASE_WETH)%string || (currency0 log =? BASE_USDC)%string)%bool
  then currency1 log else currency0 log.

(** [processPoolEvent]: the whole body runs inside the try block and the
    catch block answers [false].  Console output is not modelled, nor is
    [pairedWith], which only feeds it. *)
Definition processPoolEvent (log : PoolLog) : M bool :=
  try_catch
    ((* Check if this is a WETH or USDC pair *)
     let isWETHPair :=
       ((currency0 log =? BASE_WETH)%string || (currency1 log =? BASE_WETH)%string)%bool in
     let isUSDCPair :=
       ((currency0 log =? BASE_USDC)%string || (currency1 log =? BASE_USDC)%string)%bool in
     if (negb isWETHPair && negb isUSDCPair)%bool then ret false else
     let tokenAddress := candidate log in
     (* Check if we already have this token in database *)
     existingTokens <- getTopTokens 100 ;;
     if existsb (fun t => (toLowerCase (Row.address t) =? toLowerCase tokenAddress)%string)
                existingTokens
     then ret false else
     (* Get token metadata *)
     tokenData <- getTokenMetadata tokenAddress ;;
     match tokenData with
     | None => ret false
     | Some tokenData =>
         (* Classify token type *)
         let tokenType := classifyTokenType (hookData log) (fee log) in
         (* Calculate initial score *)
         let ageMinutes := num 0 in
         r1 <- random ;;
         let liquidityUSD := js_add (js_mul r1 (num 20000)) (num 5000) in
         r2 <- random ;;
         let priceChangePercent := js_mul r2 (num 50) in
         let score := calculateTokenScore (mkMetrics ageMinutes liquidityUSD priceChangePercent) in
         (* Save to database *)
         r3 <- random ;;
         r4 <- random ;;
         r5 <- random ;;
         let newToken :=
           {| TokenData.address := tokenAddress;
              TokenData.symbol := TokenMetadata.symbol tokenData;
              TokenData.name := TokenMetadata.name tokenData;
              TokenData.poolAddress := poolId log;
              TokenData.score := score;
              TokenData.liquidity := liquidityUSD;
              TokenData.price := js_add (js_mul r3 (Fin (1 # 1000))) (Fin (1 # 10000));
              TokenData.priceChange := priceChangePercent;
              TokenData.ageMinutes := num 0;
              TokenData.marketCap := js_mul liquidityUSD (js_add (js_mul r4 (num 10)) (num 5));
              TokenData.volume24h := js_mul liquidityUSD (js_add (js_mul r5 (num 2)) (Fin (1 # 2)));
              TokenData.isSpikingNow := 25 <=? score;
              TokenData.tokenType := Some tokenType |} in
         saveToken newToken ;;
         ret true
     end)
    (fun error => ret false).

(** The three JSON bodies of the handler. *)
Inductive Response : Type :=
| Scanned (topTokens : list Row.t) (lastUpdate : Z) (blocksScanned : Z * Z)
          (newTokensFound : Z) (totalEvents : nat)
| Cached (topTokens : list Row.t) (details : Error) (lastUpdate : Z)
| SystemFailure (scanError dbError : Error).

(** [for (const log of logs) { ... if (wasNew) newTokensFound++ }]. *)
Fixpoint processLogs (logs : list PoolLog) (newTokensFound : Z) : M Z :=
  match logs with
  | [] => ret newTokensFound
  | log :: rest =>
      wasNew <- processPoolEvent log ;;
      processLogs rest (if wasNew then newTokensFound + 1 else newTokensFound)
  end.

(** The route handler: one scan cycle.  [new Date()] reads the clock;
    [blocksScanned] is kept as the pair the template string prints. *)
Definition GET : M Response :=
  try_catch
    ((* First, update existing token ages and clean up old ones *)
     updateTokenAges ;;
     cleanupOldTokens ;;
     (* Get current block number *)
     currentBlock <- getBlockNumber ;;
     (* Look back 200 blocks or from last processed block *)
     fromBlock <- (fun w => (Ret (if 0 <? lastBlockProcessed w
                                  then lastBlockProcessed w + 1
                                  else currentBlock - 200), w)) ;;
     (* Get pool initialization events *)
     logs <- getContractEvents
               (GetContractEventsParameters.mk
                  None (* no abi member *)
                  UNISWAP_V4_POOL_MANAGER
                  (Some POOL_INITIALIZE_EVENT)
                  fromBlock
                  currentBlock) ;;
     (* Process new pools *)
     newTokensFound <- processLogs logs 0 ;;
     (* Update last processed block *)
     (fun w => (Ret tt, set_lastBlockProcessed currentBlock w)) ;;
     (* Get top tokens from database *)
     topTokens <- getTopTokens 20 ;;
     now <- (fun w => (Ret (clock w), w)) ;;
     ret (Scanned topTokens now (fromBlock, currentBlock) newTokensFound (List.length logs)))
    (fun error =>
       (* Try to return cached data from database on error *)
       try_catch
         (topTokens <- getTopTokens 20 ;;
          now <- (fun w => (Ret (clock w), w)) ;;
          ret (Cached topTokens error now))
         (fun dbError => ret (SystemFailure error dbError))).

(** *** Vocabulary of the statements below *)

(** The pool pairs against WETH or USDC. *)
Definition relevant (log : PoolLog) : bool :=
  ((currency0 log =? BASE_WETH)%string || (currency1 log =? BASE_WETH)%string
   || (currency0 log =? BASE_USDC)%string || (currency1 log =? BASE_USDC)%string)%bool.

(** The candidate of [log] is, up to letter case, the address of one of the
    hundred best fresh rows: what the dedup query of [processPoolEvent] sees. *)
Definition duplicate (log : PoolLog) (w : World) : bool :=
  existsb (fun t => (toLowerCase (Row.address t) =? toLowerCase (candidate log))%string)
          (select_top 100 (clock w) (tokens w)).

Definition or_default {A} (r : ReadResult A) (d : A) : A :=
  match r with
  | Resolves a => a
  | Rejects => d
  end.

(** The metadata gathered from a contract: each field as read, or its
    default when the read rejects. *)
Definition gathered (c : Erc20) : TokenMetadata.t :=
  TokenMetadata.mk (or_default (read_name c) "Unknown Token")
                   (or_default (read_symbol c) "UNK")
                   (or_default (read_decimals c) 18).

(** Symbol of at most 20 and name of at most 100 characters. *)
Definition within_bounds (m : TokenMetadata.t) : bool :=
  (Nat.leb (String.length (TokenMetadata.symbol m)) 20
   && Nat.leb (String.length (TokenMetadata.name m)) 100)%bool.

(** What a step leaves alone: the clock, the chain and the cursor. *)
Definition same_surroundings (w w' : World) : Prop :=
  clock w' = clock w /\ chainHead w' = chainHead w /\ chainLogs w' = chainLogs w
  /\ contracts w' = contracts w /\ lastBlockProcessed w' = lastBlockProcessed w.

(** The row [new] carries what the conflict branch of [saveToken] writes
    when it runs with [d] at time [now]: the eight data columns of the SET
    list come from [d], and [last_updated] is [now]. *)
Definition refreshed (d : TokenData.t) (now : Z) (new : Row.t) : Prop :=
  Row.score new = TokenData.score d
  /\ Row.liquidity new = TokenData.liquidity d
  /\ Row.price new = TokenData.price d
  /\ Row.price_change new = TokenData.priceChange d
  /\ Row.age_minutes new = TokenData.ageMinutes d
  /\ Row.last_updated new = now
  /\ Row.is_spiking_now new = TokenData.isSpikingNow d
  /\ Row.market_cap new = TokenData.marketCap d
  /\ Row.volume_24h new = TokenData.volume24h d.


(** [a] may stand before [b] in the answer of the top-N query: it has the
    higher score, or the same score and a detection that is not older. *)
Definition ranks_no_lower (a b : Row.t) : Prop :=
  Row.score b < Row.score a
  \/ (Row.score b = Row.score a /\ Row.detected_at b <= Row.detected_at a).

(** No two rows of the table, an earlier and a later one, share an address
    key. *)
Definition keys_unique (rows : list Row.t) : Prop :=
  ForallOrdPairs (fun a b => same_address (Row.address a) (Row.address b) = false) rows.

(** No call of the run is going to fail. *)
Definition no_faults (w : World) : Prop := Forall (fun f => f = false) (faults w).

(** What the data model asks of a stored row: a score between 0 and 30, the
    spiking flag [score >= 25], a symbol of at most 20 and a name of at most
    100 characters. *)
Definition sound_row (r : Row.t) : Prop :=
  0 <= Row.score r <= 30
  /\ Row.is_spiking_now r = (25 <=? Row.score r)
  /\ (String.length (Row.symbol r) <= 20)%nat
  /\ (String.length (Row.name r) <= 100)%nat.

(** *** Sample data *)

Definition TOKEN_LOWER : string := "0x00000000000000000000000000000000000abcde".
Definition TOKEN_UPPER : string := "0x00000000000000000000000000000000000ABCDE".
Definition TOKEN_LONG_SYMBOL : string := "0x0000000000000000000000000000000000001111".
Definition TOKEN_HALF_READ : string := "0x0000000000000000000000000000000000002222".

(** Four contracts: one that answers every read, one whose symbol has 25
    characters, one whose name and decimals reads reject, and (everywhere
    else) one that rejects every read. *)
Definition sample_contracts (a : string) : Erc20 :=
  if (a =? TOKEN_LOWER)%string
  then mkErc20 (Resolves "Test") (Resolves "TST") (Resolves 18)
  else if (a =? TOKEN_LONG_SYMBOL)%string
  then mkErc20 (Resolves "Long") (Resolves "ABCDEFGHIJKLMNOPQRSTUVWXY") (Resolves 18)
  else if (a =? TOKEN_HALF_READ)%string
  then mkErc20 Rejects (Resolves "TST") Rejects
  else mkErc20 Rejects Rejects Rejects.

Definition pool_of (token : string) : PoolLog :=
  mkPoolLog 120 "0x01" BASE_WETH token 3000 "0x".

Definition sample_now : Z := 1700000000.

(** A row for [TOKEN_UPPER], detected [age] seconds before [sample_now]. *)
Definition row_of_age (age : Z) : Row.t :=
  Row.mk TOKEN_UPPER "TST" "Test" "0x00" 18 (num 9000) (Fin (1 # 1000)) (num 20)
         (num 0) (num 60000) (num 9000) false "BASE_APP"
         (sample_now - age) (sample_now - age).

(** A world with the given table, failure flags, cursor and head; one event
    for [token] sits in block 120. *)
Definition sample_world (rows : list Row.t) (flags : list bool)
    (cursor head : Z) (token : string) : World :=
  mkWorld rows sample_now head [pool_of token] sample_contracts flags
          [1 # 2; 1 # 5; 1 # 2; 1 # 2; 1 # 2] cursor.

(** Address keys compared exactly, and compared up to letter case. *)
Definition exact_key : string -> string -> bool := String.eqb.
Definition caseless_key (a b : string) : bool :=
  (toLowerCase a =? toLowerCase b)%string.

Definition sample_data : TokenData.t :=
  TokenData.mk TOKEN_UPPER "TST" "Test" "0x02" 26 (num 15000) (Fin (1 # 1000))
               (num 60) (num 0) (num 90000) (num 20000) true (Some "BASE_APP").

(** * Properties *)

(** ** Order facts on numbers *)

Lemma js_lt_true_iff (x y : number) :
  js_lt x y = true <->
  match x, y with
  | NaN, _ | _, NaN => False
  | _, NegInf => False
  | NegInf, _ => True
  | PosInf, _ => False
  | Fin _, PosInf => True
  | Fin a, Fin b => (a < b)%Q
  end.
Proof.
  destruct x, y; simpl; try (split; [discriminate | contradiction]);
    try (split; [intros _; exact I | reflexivity]).
  rewrite Qlt_alt. destruct (q ?= q0)%Q; split; congruence.
Qed.

Lemma js_le_true_iff (x y : number) :
  js_le x y = true <->
  match x, y with
  | NaN, _ | _, NaN => False
  | NegInf, _ => True
  | _, PosInf => True
  | _, NegInf => False
  | PosInf, _ => False
  | Fin a, Fin b => (a <= b)%Q
  end.
Proof.
  destruct x, y; simpl; try (split; [discriminate | contradiction]);
    try (split; [intros _; exact I | reflexivity]).
  rewrite Qle_alt. destruct (q ?= q0)%Q; split; congruence.
Qed.

Lemma js_lt_le_trans (x y z : number) :
  js_lt x y = true -> js_le y z = true -> js_lt x z = true.
Proof.
  rewrite !js_lt_true_iff, js_le_true_iff.
  destruct x, y, z; try contradiction; try (intros; exact I).
  apply Qlt_le_trans.
Qed.

Lemma js_le_lt_trans (x y z : number) :
  js_le x y = true -> js_lt y z = true -> js_lt x z = true.
Proof.
  rewrite !js_lt_true_iff, js_le_true_iff.
  destruct x, y, z; try contradiction; try (intros; exact I).
  apply Qle_lt_trans.
Qed.

(** A threshold that the smaller value exceeds is exceeded by the larger. *)
Lemma js_gt_upward (x y c : number) :
  js_le x y = true -> js_gt x c = true -> js_gt y c = true.
Proof.
  unfold js_gt. intros Hxy Hc. exact (js_lt_le_trans c x y Hc Hxy).
Qed.

(** A bound the larger value is below bounds the smaller one too. *)
Lemma js_lt_downward (x y c : number) :
  js_le x y = true -> js_lt y c = true -> js_lt x c = true.
Proof.
  intros Hxy Hc. exact (js_le_lt_trans x y c Hxy Hc).
Qed.

(** ** ScoreCalculator *)

Lemma calculateTokenScore_unfold (m : Metrics) :
  calculateTokenScore m =
  Z.min 30 (age_subscore (ageMinutes m)
            + liquidity_subscore (liquidityUSD m)
            + momentum_subscore (priceChangePercent m)).
Proof.
  unfold calculateTokenScore, age_subscore, liquidity_subscore, momentum_subscore.
  destruct (js_lt (ageMinutes m) (num 5)), (js_lt (ageMinutes m) (num 15)),
    (js_lt (ageMinutes m) (num 30));
  destruct (js_gt (liquidityUSD m) (num 20000)), (js_gt (liquidityUSD m) (num 10000)),
    (js_gt (liquidityUSD m) (num 5000)), (js_gt (liquidityUSD m) (num 2000));
  destruct (js_gt (priceChangePercent m) (num 100)), (js_gt (priceChangePercent m) (num 50)),
    (js_gt (priceChangePercent m) (num 25)), (js_gt (priceChangePercent m) (num 10));
  reflexivity.
Qed.

Lemma age_subscore_range (a : number) : 0 <= age_subscore a <= 10.
Proof.
  unfold age_subscore.
  destruct (js_lt a (num 5)), (js_lt a (num 15)), (js_lt a (num 30)); lia.
Qed.

Lemma liquidity_subscore_range (l : number) : 0 <= liquidity_subscore l <= 10.
Proof.
  unfold liquidity_subscore.
  destruct (js_gt l (num 20000)), (js_gt l (num 10000)), (js_gt l (num 5000)),
    (js_gt l (num 2000)); lia.
Qed.

Lemma momentum_subscore_range (p : number) : 0 <= momentum_subscore p <= 10.
Proof.
  unfold momentum_subscore.
  destruct (js_gt p (num 100)), (js_gt p (num 50)), (js_gt p (num 25)),
    (js_gt p (num 10)); lia.
Qed.

(** C1. For every input (in particular every non-negative integer age and
    non-negative liquidity and price change) [calculateTokenScore] returns
    the sum of the age, liquidity and momentum sub-scores of the
    specification's tables clamped to at most 30; the clamp never bites, and
    the result is an integer between 0 and 30. *)
Theorem calculateTokenScore_clamped_sum (m : Metrics) :
  calculateTokenScore m =
    Z.min 30 (age_subscore (ageMinutes m)
              + liquidity_subscore (liquidityUSD m)
              + momentum_subscore (priceChangePercent m))
  /\ calculateTokenScore m =
       age_subscore (ageMinutes m)
       + liquidity_subscore (liquidityUSD m)
       + momentum_subscore (priceChangePercent m)
  /\ 0 <= calculateTokenScore m <= 30.
Proof.
  pose proof (age_subscore_range (ageMinutes m)).
  pose proof (liquidity_subscore_range (liquidityUSD m)).
  pose proof (momentum_subscore_range (priceChangePercent m)).
  rewrite calculateTokenScore_unfold. lia.
Qed.

Example score_boundaries :
  calculateTokenScore (mkMetrics (num 4) (num 20001) (num 101)) = 30
  /\ calculateTokenScore (mkMetrics (num 5) (num 20000) (num 100)) = 24
  /\ calculateTokenScore (mkMetrics (num 15) (num 5000) (num 25)) = 11
  /\ calculateTokenScore (mkMetrics (num 30) (num 2000) (num 10)) = 0
  /\ calculateTokenScore (mkMetrics (num 0) (num 15000) (num 60)) = 26.
Proof. repeat split; reflexivity. Qed.

Lemma age_subscore_antitone (a a' : number) :
  js_le a a' = true -> age_subscore a' <= age_subscore a.
Proof.
  intros Hle. unfold age_subscore.
  destruct (js_lt a' (num 5)) eqn:E5.
  { rewrite (js_lt_downward a a' _ Hle E5). lia. }
  destruct (js_lt a' (num 15)) eqn:E15.
  { rewrite (js_lt_downward a a' _ Hle E15). destruct (js_lt a (num 5)); lia. }
  destruct (js_lt a' (num 30)) eqn:E30.
  { rewrite (js_lt_downward a a' _ Hle E30).
    destruct (js_lt a (num 5)), (js_lt a (num 15)); lia. }
  destruct (js_lt a (num 5)), (js_lt a (num 15)), (js_lt a (num 30)); lia.
Qed.

Lemma liquidity_subscore_monotone (l l' : number) :
  js_le l l' = true -> liquidity_subscore l <= liquidity_subscore l'.
Proof.
  intros Hle. unfold liquidity_subscore.
  destruct (js_gt l (num 20000)) eqn:E1.
  { rewrite (js_gt_upward l l' _ Hle E1). lia. }
  destruct (js_gt l (num 10000)) eqn:E2.
  { rewrite (js_gt_upward l l' _ Hle E2). destruct (js_gt l' (num 20000)); lia. }
  destruct (js_gt l (num 5000)) eqn:E3.
  { rewrite (js_gt_upward l l' _ Hle E3).
    destruct (js_gt l' (num 20000)), (js_gt l' (num 10000)); lia. }
  destruct (js_gt l (num 2000)) eqn:E4.
  { rewrite (js_gt_upward l l' _ Hle E4).
    destruct (js_gt l' (num 20000)), (js_gt l' (num 10000)), (js_gt l' (num 5000)); lia. }
  destruct (js_gt l' (num 20000)), (js_gt l' (num 10000)), (js_gt l' (num 5000)),
    (js_gt l' (num 2000)); lia.
Qed.

Lemma momentum_subscore_monotone (p p' : number) :
  js_le p p' = true -> momentum_subscore p <= momentum_subscore p'.
Proof.
  intros Hle. unfold momentum_subscore.
  destruct (js_gt p (num 100)) eqn:E1.
  { rewrite (js_gt_upward p p' _ Hle E1). lia. }
  destruct (js_gt p (num 50)) eqn:E2.
  { rewrite (js_gt_upward p p' _ Hle E2). destruct (js_gt p' (num 100)); lia. }
  destruct (js_gt p (num 25)) eqn:E3.
  { rewrite (js_gt_upward p p' _ Hle E3).
    destruct (js_gt p' (num 100)), (js_gt p' (num 50)); lia. }
  destruct (js_gt p (num 10)) eqn:E4.
  { rewrite (js_gt_upward p p' _ Hle E4).
    destruct (js_gt p' (num 100)), (js_gt p' (num 50)), (js_gt p' (num 25)); lia. }
  destruct (js_gt p' (num 100)), (js_gt p' (num 50)), (js_gt p' (num 25)),
    (js_gt p' (num 10)); lia.
Qed.

Lemma score_as_sum (a l p : number) :
  calculateTokenScore (mkMetrics a l p) =
  age_subscore a + liquidity_subscore l + momentum_subscore p.
Proof.
  pose proof (age_subscore_range a).
  pose proof (liquidity_subscore_range l).
  pose proof (momentum_subscore_range p).
  rewrite calculateTokenScore_unfold. simpl. lia.
Qed.

(** C9 (amended). [calculateTokenScore] is monotonic non-increasing in
    [ageMinutes] (newer is better) and monotonic non-decreasing in
    [liquidityUSD] and in [priceChangePercent], each with the other two inputs
    held fixed. *)
Theorem calculateTokenScore_monotonicity :
  (forall a a' l p, js_le a a' = true ->
     calculateTokenScore (mkMetrics a' l p) <= calculateTokenScore (mkMetrics a l p))
  /\ (forall a l l' p, js_le l l' = true ->
        calculateTokenScore (mkMetrics a l p) <= calculateTokenScore (mkMetrics a l' p))
  /\ (forall a l p p', js_le p p' = true ->
        calculateTokenScore (mkMetrics a l p) <= calculateTokenScore (mkMetrics a l p')).
Proof.
  repeat split; intros; rewrite !score_as_sum.
  - pose proof (age_subscore_antitone a a' H). lia.
  - pose proof (liquidity_subscore_monotone l l' H). lia.
  - pose proof (momentum_subscore_monotone p p' H). lia.
Qed.

(** ** TokenClassifier *)

Lemma toHex_of_bytes_is_hooked (b : Byte.byte) (rest : list Byte.byte) :
  (truthy (toHex (b :: rest)) && negb (toHex (b :: rest) =? "0x")%string)%bool = true.
Proof. reflexivity. Qed.

Lemma tag_name_injective (t1 t2 : TokenTag) : tag_name t1 = tag_name t2 -> t1 = t2.
Proof. destruct t1, t2; simpl; intros H; try reflexivity; discriminate H. Qed.

(** C5. [classifyTokenType] is total and answers one of the four tags
    BASE_APP, ZORA, HOOKED, STANDARD; fee 3000 gives BASE_APP and fee 10000
    gives ZORA whatever the hook payload is; and on the hex rendering of any
    payload it is the first-match classifier of the specification: fee 3000,
    else fee 10000, else a non-empty payload gives HOOKED, else STANDARD.  On
    a raw [hookData] string, HOOKED is the answer exactly when neither fee
    rule applies and the string is neither empty nor ["0x"]. *)
Theorem classifyTokenType_first_match (hookData : string) (fee : Z) :
  In (classifyTokenType hookData fee) ["BASE_APP"; "ZORA"; "HOOKED"; "STANDARD"]
  /\ classifyTokenType hookData 3000 = "BASE_APP"
  /\ classifyTokenType hookData 10000 = "ZORA"
  /\ (forall payload : list Byte.byte,
        classifyTokenType (toHex payload) fee = tag_name (classify_spec fee payload))
  /\ (forall payload : list Byte.byte,
        classifyTokenType (toHex payload) fee = "HOOKED" <->
        fee <> 3000 /\ fee <> 10000 /\ payload <> [])
  /\ (classifyTokenType hookData fee = "HOOKED" <->
      fee <> 3000 /\ fee <> 10000 /\ hookData <> "" /\ hookData <> "0x").
Proof.
  assert (Hraw : classifyTokenType hookData fee = "HOOKED" <->
                 fee <> 3000 /\ fee <> 10000 /\ hookData <> "" /\ hookData <> "0x").
  { unfold classifyTokenType.
    destruct (Z.eqb_spec fee 3000); [split; [discriminate | tauto] |].
    destruct (Z.eqb_spec fee 10000); [split; [discriminate | tauto] |].
    destruct hookData as [| c rest]; cbn [truthy andb];
      [split; [discriminate | tauto] |].
    destruct (String.eqb_spec (String c rest) "0x") as [E | E]; cbn [negb].
    - split; [discriminate | tauto].
    - split; [intros _; repeat split; try assumption; discriminate | reflexivity]. }
  assert (Hspec : forall payload : list Byte.byte,
             classifyTokenType (toHex payload) fee = tag_name (classify_spec fee payload)).
  { intros payload. unfold classifyTokenType, classify_spec.
    destruct (fee =? 3000); [reflexivity |].
    destruct (fee =? 10000); [reflexivity |].
    destruct payload as [| b rest]; [reflexivity |].
    rewrite toHex_of_bytes_is_hooked. reflexivity. }
  split; [| split; [reflexivity | split; [reflexivity | split; [exact Hspec | split; [| exact Hraw]]]]].
  - unfold classifyTokenType.
    destruct (fee =? 3000); [simpl; tauto |].
    destruct (fee =? 10000); [simpl; tauto |].
    destruct (truthy hookData && negb (hookData =? "0x")%string)%bool; simpl; tauto.
  - intros payload. split; [intros H; repeat split |].
    + rewrite Hspec in H. unfold classify_spec in H.
      destruct (Z.eqb_spec fee 3000); [discriminate H | assumption].
    + rewrite Hspec in H. unfold classify_spec in H.
      destruct (Z.eqb_spec fee 3000); [discriminate H |].
      destruct (Z.eqb_spec fee 10000); [discriminate H | assumption].
    + rewrite Hspec in H. unfold classify_spec in H.
      destruct (fee =? 3000); [discriminate H |].
      destruct (fee =? 10000); [discriminate H |].
      destruct payload; [discriminate H | discriminate].
    + intros (H1 & H2 & H3). rewrite Hspec. unfold classify_spec.
      destruct (Z.eqb_spec fee 3000); [contradiction |].
      destruct (Z.eqb_spec fee 10000); [contradiction |].
      destruct payload; [contradiction | reflexivity].
Qed.

(** ** MetadataResolver *)

(** No entry of [ERC20_ABI] passes the test of [getContract]: the four
    entries are strings, not parsed functions. *)
Lemma ERC20_ABI_declares_no_read_function :
  existsb is_read_function ERC20_ABI = false.
Proof. reflexivity. Qed.

(** The whole of [getTokenMetadata]: the handle has no [read] member, the
    first member access throws inside the try block, and the catch block
    answers [null].  Nothing is touched. *)
Lemma getTokenMetadata_run (tokenAddress : string) (w : World) :
  getTokenMetadata tokenAddress w = (Ret None, w).
Proof. reflexivity. Qed.

(** What a fallback handler does to the promise of a read, once there is
    one: the value read, or the default when the read rejects. *)
Lemma catch_with_read {A} (result : ReadResult A) (fallback : A) (w : World) :
  catch_with (read result) fallback w = (Ret (or_default result fallback), w).
Proof. destruct result; reflexivity. Qed.

(** C7. The fallback handlers do substitute the default for a read that
    rejects, each for its own field; but [getTokenMetadata] never gets as far
    as attaching them.  [ERC20_ABI] holds four unparsed signature strings, so
    the handle [getContract] builds has no [read] member; the first of the
    three member accesses throws before any promise exists, the enclosing
    try block is left, and the answer is [null]: for every token address and
    every chain state, whether the reads of the contract would resolve or
    reject, whatever the lengths of the fields.  The result with defaults
    that the property describes is never returned. *)
Theorem getTokenMetadata_answers_null (tokenAddress : string) (w : World) :
  (forall (c : Erc20),
     catch_with (read (read_name c)) "Unknown Token" w
       = (Ret (or_default (read_name c) "Unknown Token"), w)
     /\ catch_with (read (read_symbol c)) "UNK" w
       = (Ret (or_default (read_symbol c) "UNK"), w)
     /\ catch_with (read (read_decimals c)) 18 w
       = (Ret (or_default (read_decimals c) 18), w))
  /\ getContract tokenAddress ERC20_ABI w = (Ret (mkContract None), w)
  /\ read_call (mkContract None) read_name w = (Throw TypeError, w)
  /\ getTokenMetadata tokenAddress w = (Ret None, w)
  /\ fst (getTokenMetadata tokenAddress w) <> Ret (Some (gathered (contracts w tokenAddress))).
Proof.
  split; [| repeat split; discriminate].
  intros c. repeat split; apply catch_with_read.
Qed.

(** ** PoolEventProcessor *)

Lemma relevant_alt (log : PoolLog) :
  (negb ((currency0 log =? BASE_WETH)%string || (currency1 log =? BASE_WETH)%string)
   && negb ((currency0 log =? BASE_USDC)%string || (currency1 log =? BASE_USDC)%string))%bool
  = negb (relevant log).
Proof.
  unfold relevant.
  destruct (currency0 log =? BASE_WETH)%string, (currency1 log =? BASE_WETH)%string,
    (currency0 log =? BASE_USDC)%string, (currency1 log =? BASE_USDC)%string; reflexivity.
Qed.

Ltac world_simpl :=
  cbn [clock tokens faults entropy chainHead chainLogs contracts lastBlockProcessed
       set_faults set_entropy set_tokens set_lastBlockProcessed fst snd] in *.

Lemma calculateTokenScore_range (m : Metrics) : 0 <= calculateTokenScore m <= 30.
Proof.
  pose proof (age_subscore_range (ageMinutes m)).
  pose proof (liquidity_subscore_range (liquidityUSD m)).
  pose proof (momentum_subscore_range (priceChangePercent m)).
  rewrite calculateTokenScore_unfold. lia.
Qed.

(** [processPoolEvent] in closed form, world included.  An event that pairs
    neither reference asset ends at once.  Any other event costs the dedup
    query and ends there (the query failed, or it holds the candidate) or at
    the metadata, which is [null]: the answer is [false] each time, and the
    lines that draw the mock metrics and save the record are never run. *)
Lemma processPoolEvent_run (log : PoolLog) (w : World) :
  processPoolEvent log w =
  (Ret false, if relevant log then set_faults (tl (faults w)) w else w).
Proof.
  unfold processPoolEvent. cbv zeta. rewrite relevant_alt.
  destruct (relevant log); cbn [negb]; [| reflexivity].
  cbv [try_catch bind ret getTopTokens db_select external_call].
  destruct (hd false (faults w)) eqn:F1; [reflexivity |].
  world_simpl.
  destruct (existsb _ (select_top 100 (clock w) (tokens w))) eqn:Dup; [reflexivity |].
  rewrite getTokenMetadata_run. reflexivity.
Qed.

(** Every run of [processPoolEvent]: it returns [false], never throws, and
    leaves the table, the entropy, the clock, the chain and the cursor as
    they are. *)
Lemma processPoolEvent_spec (log : PoolLog) (w : World) :
  exists w',
    processPoolEvent log w = (Ret false, w')
    /\ same_surroundings w w'
    /\ tokens w' = tokens w
    /\ entropy w' = entropy w.
Proof.
  rewrite processPoolEvent_run. eexists. split; [reflexivity |].
  unfold same_surroundings. destruct (relevant log); world_simpl; repeat split.
Qed.



(** C6. When the gathered metadata breaks a bound (symbol longer than 20 or
    name longer than 100), [getTokenMetadata] returns the no-result [null]
    without throwing, [processPoolEvent] returns [false] for the event, and
    the table is left as it was. *)
Theorem invalid_metadata_is_discarded (log : PoolLog) (w : World) :
  (20 < String.length (TokenMetadata.symbol (gathered (contracts w (candidate log))))
   \/ 100 < String.length (TokenMetadata.name (gathered (contracts w (candidate log)))))%nat ->
  getTokenMetadata (candidate log) w = (Ret None, w)
  /\ exists w', processPoolEvent log w = (Ret false, w') /\ tokens w' = tokens w.
Proof.
  intros _. split; [apply getTokenMetadata_run |].
  destruct (processPoolEvent_spec log w) as (w' & Run & _ & Tok & _).
  exists w'. split; assumption.
Qed.

(** C4. If the table holds a row whose address is, up to letter case, the
    candidate of the event, whether or not that row is among those the dedup
    query returns, the event is discarded: [processPoolEvent] returns
    [false] and the table is left as it was, so no second record appears.
    A row the dedup query returns stops the event at the dedup check; a row
    it does not return (detected more than two hours ago, or ranked below
    the hundredth) lets the event through to metadata resolution, where it
    is discarded. *)
Theorem known_address_is_not_recorded_twice (log : PoolLog) (w : World) (r : Row.t) :
  In r (tokens w) ->
  toLowerCase (Row.address r) = toLowerCase (candidate log) ->
  exists w',
    processPoolEvent log w = (Ret false, w')
    /\ tokens w' = tokens w
    /\ (In r (select_top 100 (clock w) (tokens w)) -> duplicate log w = true).
Proof.
  intros _ Hcase.
  destruct (processPoolEvent_spec log w) as (w' & Run & _ & Tok & _).
  exists w'. split; [exact Run |]. split; [exact Tok |].
  intros Hin. unfold duplicate. apply existsb_exists. exists r. split; [exact Hin |].
  rewrite Hcase. apply String.eqb_refl.
Qed.

(** ** ScanCoordinator *)


(** Every run of [GET]: it answers, never throws, and never with the scan
    summary; the cursor, the entropy, the clock and the chain are the ones
    before; the table is the old one after the aging and the expiry that
    went through. *)
Lemma GET_spec (w : World) :
  exists resp w',
    GET w = (Ret resp, w')
    /\ same_surroundings w w'
    /\ entropy w' = entropy w
    /\ ((exists toks e, resp = Cached toks e (clock w))
        \/ (exists e e', resp = SystemFailure e e'))
    /\ (tokens w' = tokens w
        \/ tokens w' = update_ages (clock w) (tokens w)
        \/ tokens w' = delete_old (clock w) (update_ages (clock w) (tokens w))).
Proof.
  unfold same_surroundings.
  cbv [GET try_catch bind ret throw updateTokenAges cleanupOldTokens db_execute external_call
       getBlockNumber getContractEvents GetContractEventsParameters.abi
       getTopTokens db_select].
  destruct (hd false (faults w)) eqn:F0; world_simpl.
  { destruct (hd false (tl (faults w))); eexists _, _; (split; [reflexivity |]);
      world_simpl; repeat split; eauto. }
  destruct (hd false (tl (faults w))) eqn:F1; world_simpl.
  { destruct (hd false (tl (tl (faults w)))); eexists _, _; (split; [reflexivity |]);
      world_simpl; repeat split; eauto. }
  destruct (hd false (tl (tl (faults w)))) eqn:F2; world_simpl.
  { destruct (hd false (tl (tl (tl (faults w))))); eexists _, _; (split; [reflexivity |]);
      world_simpl; repeat split; eauto. }
  destruct (hd false (tl (tl (tl (faults w))))) eqn:F3; eexists _, _;
    (split; [reflexivity |]); world_simpl; repeat split; eauto.
Qed.

(** A cycle whose aging, expiry and head lookup go through, and whose
    closing query goes through: the fetch throws all the same, and the
    answer is the cached body with the rows of the aged and expired table. *)
Lemma GET_quiet_run (w : World) :
  hd false (faults w) = false ->
  hd false (tl (faults w)) = false ->
  hd false (tl (tl (faults w))) = false ->
  hd false (tl (tl (tl (faults w)))) = false ->
  exists w',
    GET w = (Ret (Cached (select_top 20 (clock w) (tokens w')) TypeError (clock w)), w')
    /\ tokens w' = delete_old (clock w) (update_ages (clock w) (tokens w))
    /\ lastBlockProcessed w' = lastBlockProcessed w
    /\ entropy w' = entropy w
    /\ faults w' = tl (tl (tl (tl (faults w)))).
Proof.
  intros F0 F1 F2 F3.
  cbv [GET try_catch bind ret throw updateTokenAges cleanupOldTokens db_execute external_call
       getBlockNumber getContractEvents GetContractEventsParameters.abi
       getTopTokens db_select].
  rewrite F0. world_simpl. rewrite F1. world_simpl. rewrite F2. world_simpl.
  rewrite F3. world_simpl.
  match goal with
  | |- exists w', (_, ?final) = _ /\ _ => exists final
  end.
  world_simpl. repeat split.
Qed.




(** ** TokenStore *)

Lemma In_place (x r : Row.t) (sorted : list Row.t) :
  In x (place r sorted) <-> x = r \/ In x sorted.
Proof.
  induction sorted as [| y rest IH]; cbn [place].
  - simpl. intuition congruence.
  - destruct (ranks_before y r); cbn [In]; [rewrite IH |]; intuition congruence.
Qed.

Lemma In_order_rows (x : Row.t) (rows : list Row.t) :
  In x (order_rows rows) <-> In x rows.
Proof.
  unfold order_rows. induction rows as [| r rest IH]; cbn [fold_right In].
  - tauto.
  - rewrite In_place, IH. intuition congruence.
Qed.

Lemma length_place (r : Row.t) (sorted : list Row.t) :
  List.length (place r sorted) = S (List.length sorted).
Proof.
  induction sorted as [| y rest IH]; cbn [place]; [reflexivity |].
  destruct (ranks_before y r); cbn [List.length]; [rewrite IH |]; reflexivity.
Qed.

Lemma length_order_rows (rows : list Row.t) :
  List.length (order_rows rows) = List.length rows.
Proof.
  unfold order_rows. induction rows as [| r rest IH]; cbn [fold_right List.length].
  - reflexivity.
  - rewrite length_place, IH. reflexivity.
Qed.

Lemma In_firstn_In {A : Type} (n : nat) (x : A) (l : list A) :
  In x (firstn n l) -> In x l.
Proof.
  revert l. induction n as [| n IH]; intros l Hin; [contradiction |].
  destruct l as [| a rest]; [contradiction |].
  cbn [firstn In] in *. destruct Hin as [-> | Hin]; [left; reflexivity |].
  right. apply IH. exact Hin.
Qed.

(** What the top-N query returns are fresh rows of the table. *)
Lemma select_top_sound (limit : nat) (now : Z) (rows : list Row.t) (r : Row.t) :
  In r (select_top limit now rows) -> In r rows /\ fresh now r = true.
Proof.
  unfold select_top. intros Hin. apply In_firstn_In in Hin.
  apply (proj1 (In_order_rows _ _)) in Hin.
  apply (proj1 (filter_In _ _ _)) in Hin. exact Hin.
Qed.

(** While no more than [limit] rows are fresh, the query returns every one
    of them. *)
Lemma fresh_row_is_visible (limit : nat) (now : Z) (rows : list Row.t) (r : Row.t) :
  (List.length (filter (fresh now) rows) <= limit)%nat ->
  In r rows -> fresh now r = true ->
  In r (select_top limit now rows).
Proof.
  intros Hfew Hin Hfresh. unfold select_top.
  rewrite firstn_all2 by (rewrite length_order_rows; exact Hfew).
  apply In_order_rows. apply filter_In. split; assumption.
Qed.

Lemma Forall2_map_same {A : Type} (R : A -> A -> Prop) (f : A -> A) (l : list A) :
  (forall x, In x l -> R x (f x)) -> Forall2 R l (map f l).
Proof.
  induction l as [| a rest IH]; intros H; cbn [map]; constructor.
  - apply H. left. reflexivity.
  - apply IH. intros x Hx. apply H. right. exact Hx.
Qed.

Lemma Forall2_same {A : Type} (R : A -> A -> Prop) (l : list A) :
  (forall x, In x l -> R x x) -> Forall2 R l l.
Proof.
  intros H. rewrite <- (map_id l) at 2. apply Forall2_map_same. exact H.
Qed.

(** C10. On the update path of [saveToken] (a row with the same address key
    exists) the table keeps its rows one for one: every row keeps its
    [detected_at] (and its address, symbol, name, pool address and token
    type); when the statement goes through, the rows with the conflicting
    address take score, liquidity, price, price_change, age_minutes,
    is_spiking_now, market_cap and volume_24h from the new data and
    [last_updated] from the clock, and every other row is unchanged. *)
Theorem saveToken_keeps_detected_at (d : TokenData.t) (w : World) :
  existsb (fun r => same_address (Row.address r) (TokenData.address d)) (tokens w) = true ->
  exists out w',
    saveToken d w = (out, w')
    /\ out = (if hd false (faults w) then Throw StoreError else Ret tt)
    /\ Forall2
         (fun old new =>
            Row.detected_at new = Row.detected_at old
            /\ Row.address new = Row.address old
            /\ Row.symbol new = Row.symbol old
            /\ Row.name new = Row.name old
            /\ Row.pool_address new = Row.pool_address old
            /\ Row.token_type new = Row.token_type old
            /\ (out = Ret tt ->
                same_address (Row.address old) (TokenData.address d) = true ->
                refreshed d (clock w) new)
            /\ (same_address (Row.address old) (TokenData.address d) = false -> new = old))
         (tokens w) (tokens w').
Proof.
  intros Hconflict.
  cbv [saveToken db_execute bind external_call].
  destruct (hd false (faults w)) eqn:F; world_simpl;
    eexists _, _; (split; [reflexivity |]); (split; [reflexivity |]); world_simpl.
  - apply Forall2_same. intros r _. repeat split; try reflexivity; discriminate.
  - unfold upsert. rewrite Hconflict. apply Forall2_map_same. intros r _.
    destruct (same_address (Row.address r) (TokenData.address d)) eqn:K;
      unfold refreshed; cbn; repeat split; try reflexivity; discriminate.
Qed.

(** Aging rewrites [age_minutes] and [last_updated] only, row for row. *)
Lemma update_ages_keeps_detected_at (now : Z) (rows : list Row.t) :
  map Row.detected_at (update_ages now rows) = map Row.detected_at rows
  /\ map Row.address (update_ages now rows) = map Row.address rows.
Proof.
  unfold update_ages. rewrite !map_map. split; apply map_ext; intros r;
    destruct (fresh now r); reflexivity.
Qed.

(** Without a conflicting row the upsert appends one row, detected now, and
    leaves the others as they are. *)
Lemma first_insert_sets_detected_at (d : TokenData.t) (now : Z) (rows : list Row.t) :
  existsb (fun r => same_address (Row.address r) (TokenData.address d)) rows = false ->
  upsert d now rows = (rows ++ [inserted_row now d])%list
  /\ Row.detected_at (inserted_row now d) = now
  /\ Row.address (inserted_row now d) = TokenData.address d.
Proof.
  intros Hnone. unfold upsert. rewrite Hnone. repeat split.
Qed.

(** ** More on the store statements *)

Lemma ranks_before_true_iff (a b : Row.t) :
  ranks_before a b = true <->
  Row.score b < Row.score a
  \/ (Row.score a = Row.score b /\ Row.detected_at b < Row.detected_at a).
Proof.
  unfold ranks_before.
  rewrite orb_true_iff, andb_true_iff, !Z.ltb_lt, Z.eqb_eq. tauto.
Qed.

Lemma ranks_before_false_iff (a b : Row.t) :
  ranks_before b a = false <-> ranks_no_lower a b.
Proof.
  unfold ranks_no_lower. split.
  - intros H.
    destruct (Z.lt_trichotomy (Row.score a) (Row.score b)) as [L | [E | G]].
    + assert (ranks_before b a = true) by (apply ranks_before_true_iff; lia). congruence.
    + destruct (Z.le_gt_cases (Row.detected_at b) (Row.detected_at a)) as [D | D];
        [right; lia |].
      assert (ranks_before b a = true) by (apply ranks_before_true_iff; lia). congruence.
    + left. exact G.
  - intros H. destruct (ranks_before b a) eqn:E; [| reflexivity].
    apply ranks_before_true_iff in E. lia.
Qed.

Lemma ranks_no_lower_trans (a b c : Row.t) :
  ranks_no_lower a b -> ranks_no_lower b c -> ranks_no_lower a c.
Proof. unfold ranks_no_lower. lia. Qed.

Lemma place_sorted (r : Row.t) (sorted : list Row.t) :
  StronglySorted ranks_no_lower sorted ->
  StronglySorted ranks_no_lower (place r sorted).
Proof.
  induction sorted as [| x rest IH]; intros Hs; cbn [place].
  - repeat constructor.
  - apply StronglySorted_inv in Hs. destruct Hs as [Hrest Hx].
    destruct (ranks_before x r) eqn:E.
    + constructor; [apply IH; exact Hrest |].
      apply Forall_forall. intros y Hy. apply In_place in Hy.
      destruct Hy as [-> | Hy].
      * apply ranks_before_true_iff in E. unfold ranks_no_lower. lia.
      * rewrite Forall_forall in Hx. apply Hx. exact Hy.
    + apply ranks_before_false_iff in E. constructor.
      * constructor; assumption.
      * constructor; [exact E |].
        rewrite Forall_forall in *. intros y Hy.
        apply (ranks_no_lower_trans r x y E). apply Hx. exact Hy.
Qed.

Lemma order_rows_sorted (rows : list Row.t) :
  StronglySorted ranks_no_lower (order_rows rows).
Proof.
  unfold order_rows. induction rows as [| r rest IH]; cbn [fold_right].
  - constructor.
  - apply place_sorted. exact IH.
Qed.

Lemma place_permutation (r : Row.t) (sorted : list Row.t) :
  Permutation (place r sorted) (r :: sorted).
Proof.
  induction sorted as [| x rest IH]; cbn [place]; [reflexivity |].
  destruct (ranks_before x r); [| reflexivity].
  rewrite IH. apply perm_swap.
Qed.

Lemma order_rows_permutation (rows : list Row.t) :
  Permutation (order_rows rows) rows.
Proof.
  unfold order_rows. induction rows as [| r rest IH]; cbn [fold_right]; [reflexivity |].
  rewrite place_permutation. constructor. exact IH.
Qed.

Lemma StronglySorted_split {A : Type} (R : A -> A -> Prop) (front back : list A) :
  StronglySorted R (front ++ back) ->
  StronglySorted R front /\ forall a b, In a front -> In b back -> R a b.
Proof.
  induction front as [| x rest IH]; cbn [app]; intros Hs.
  - split; [constructor | intros a b []].
  - apply StronglySorted_inv in Hs. destruct Hs as [Hrest Hx].
    destruct (IH Hrest) as [Hfront Hcross]. rewrite Forall_forall in Hx. split.
    + constructor; [exact Hfront |]. apply Forall_forall. intros y Hy.
      apply Hx. apply in_or_app. left. exact Hy.
    + intros a b [-> | Ha] Hb.
      * apply Hx. apply in_or_app. right. exact Hb.
      * apply Hcross; assumption.
Qed.

(** X1. What [getTopTokens] selects: at most [limit] rows, each a row of the
    table detected within the last two hours, in descending order of score
    and, at equal score, of detection time; and they are the best ones: a
    fresh row that was left out ranks no higher than any row returned. *)
Theorem select_top_is_ranked_prefix (limit : nat) (now : Z) (rows : list Row.t) :
  (List.length (select_top limit now rows) <= limit)%nat
  /\ (forall r, In r (select_top limit now rows) ->
                In r rows /\ now - two_hours < Row.detected_at r)
  /\ StronglySorted ranks_no_lower (select_top limit now rows)
  /\ (forall r t, In r rows -> now - two_hours < Row.detected_at r ->
                  ~ In r (select_top limit now rows) ->
                  In t (select_top limit now rows) -> ranks_no_lower t r).
Proof.
  unfold select_top.
  pose proof (order_rows_sorted (filter (fresh now) rows)) as Hsorted.
  rewrite <- (firstn_skipn limit (order_rows (filter (fresh now) rows))) in Hsorted.
  apply StronglySorted_split in Hsorted. destruct Hsorted as [Hfront Hcross].
  split; [apply firstn_le_length |]. split; [| split; [exact Hfront |]].
  - intros r Hin. apply In_firstn_In in Hin.
    apply (proj1 (In_order_rows _ _)) in Hin.
    apply (proj1 (filter_In _ _ _)) in Hin. destruct Hin as [Hin Hf].
    split; [exact Hin |]. unfold fresh in Hf. apply Z.ltb_lt in Hf. exact Hf.
  - intros r t Hin Hf Hout Ht. apply Hcross; [exact Ht |].
    assert (Hall : In r (order_rows (filter (fresh now) rows))).
    { apply In_order_rows. apply filter_In. split; [exact Hin |].
      unfold fresh. apply Z.ltb_lt. exact Hf. }
    rewrite <- (firstn_skipn limit (order_rows (filter (fresh now) rows))) in Hall.
    apply in_app_or in Hall. destruct Hall as [Hall | Hall]; [contradiction | exact Hall].
Qed.

(** X2. While no more than [limit] rows are fresh, [getTopTokens] returns
    each fresh row exactly as often as the table holds it: the answer is a
    rearrangement of the fresh rows. *)
Theorem select_top_keeps_all_when_few (limit : nat) (now : Z) (rows : list Row.t) :
  (List.length (filter (fresh now) rows) <= limit)%nat ->
  Permutation (select_top limit now rows) (filter (fresh now) rows).
Proof.
  intros Hfew. unfold select_top.
  rewrite firstn_all2 by (rewrite length_order_rows; exact Hfew).
  apply order_rows_permutation.
Qed.

Lemma filter_map_same {A : Type} (p : A -> bool) (f : A -> A) (l : list A) :
  (forall x, p (f x) = p x) -> filter p (map f l) = map f (filter p l).
Proof.
  intros H. induction l as [| a rest IH]; cbn [map filter]; [reflexivity |].
  rewrite H. destruct (p a); cbn [map]; rewrite IH; reflexivity.
Qed.

Lemma place_map (f : Row.t -> Row.t) (r : Row.t) (sorted : list Row.t) :
  (forall a b, ranks_before (f a) (f b) = ranks_before a b) ->
  place (f r) (map f sorted) = map f (place r sorted).
Proof.
  intros H. induction sorted as [| x rest IH]; cbn [map place]; [reflexivity |].
  rewrite H. destruct (ranks_before x r); cbn [map]; [rewrite IH |]; reflexivity.
Qed.

Lemma order_rows_map (f : Row.t -> Row.t) (rows : list Row.t) :
  (forall a b, ranks_before (f a) (f b) = ranks_before a b) ->
  order_rows (map f rows) = map f (order_rows rows).
Proof.
  intros H. unfold order_rows.
  induction rows as [| r rest IH]; cbn [map fold_right]; [reflexivity |].
  rewrite IH. apply place_map. exact H.
Qed.

(** X3. Aging does not touch what the ranking rests on: a top-N query right
    after [updateTokenAges] (same clock) returns the rows it would have
    returned before, in the same order, each one aged; scores, spiking flags
    and detection times are the old ones. *)
Theorem aging_keeps_ranking (limit : nat) (now : Z) (rows : list Row.t) :
  select_top limit now (update_ages now rows) = map (aged now) (select_top limit now rows)
  /\ map Row.score (update_ages now rows) = map Row.score rows
  /\ map Row.is_spiking_now (update_ages now rows) = map Row.is_spiking_now rows
  /\ map Row.detected_at (update_ages now rows) = map Row.detected_at rows.
Proof.
  split.
  - unfold select_top, update_ages.
    rewrite filter_map_same by (intros r; destruct (fresh now r) eqn:E; exact E).
    rewrite order_rows_map by (intros a b; destruct (fresh now a), (fresh now b); reflexivity).
    rewrite firstn_map. apply map_ext_in. intros r Hin.
    apply In_firstn_In in Hin. apply (proj1 (In_order_rows _ _)) in Hin.
    apply (proj1 (filter_In _ _ _)) in Hin. destruct Hin as [_ Hf].
    rewrite Hf. reflexivity.
  - unfold update_ages. rewrite !map_map.
    repeat split; apply map_ext; intros r; destruct (fresh now r); reflexivity.
Qed.

Lemma filter_implied {A : Type} (p q : A -> bool) (l : list A) :
  (forall x, p x = true -> q x = true) -> filter p (filter q l) = filter p l.
Proof.
  intros H. induction l as [| a rest IH]; cbn [filter]; [reflexivity |].
  destruct (q a) eqn:Q; cbn [filter].
  - rewrite IH. reflexivity.
  - destruct (p a) eqn:P; [rewrite (H a P) in Q; discriminate | exact IH].
Qed.

(** X5. Expiry only removes what the queries had stopped showing: after
    [cleanupOldTokens] every row left was detected within the last four
    hours, every such row of the old table is still there, a top-N query at
    the same clock returns what it returned before, and a second cleanup at
    that clock removes nothing. *)
Theorem cleanup_keeps_visible_rows (limit : nat) (now : Z) (rows : list Row.t) :
  (forall r, In r (delete_old now rows) <->
             In r rows /\ now - four_hours <= Row.detected_at r)
  /\ select_top limit now (delete_old now rows) = select_top limit now rows
  /\ delete_old now (delete_old now rows) = delete_old now rows.
Proof.
  unfold delete_old. split; [| split].
  - intros r. rewrite filter_In, negb_true_iff, Z.ltb_ge. tauto.
  - unfold select_top. rewrite filter_implied; [reflexivity |].
    intros r Hf. unfold fresh in Hf. apply Z.ltb_lt in Hf.
    apply negb_true_iff. apply Z.ltb_ge. unfold two_hours, four_hours in *. lia.
  - apply filter_implied. intros r H. exact H.
Qed.

(** ** More on the event processor *)

(** X6. An event whose pool pairs neither WETH nor USDC is discarded before
    any call is made: the answer is [false] and the world (table, failure
    flags, entropy, cursor) is exactly the one before. *)
Theorem irrelevant_event_costs_nothing (log : PoolLog) (w : World) :
  currency0 log <> BASE_WETH -> currency1 log <> BASE_WETH ->
  currency0 log <> BASE_USDC -> currency1 log <> BASE_USDC ->
  processPoolEvent log w = (Ret false, w).
Proof.
  intros H0w H1w H0u H1u. rewrite processPoolEvent_run. unfold relevant.
  apply String.eqb_neq in H0w, H1w, H0u, H1u. rewrite H0w, H1w, H0u, H1u. reflexivity.
Qed.

Lemma classifyTokenType_tags (hook : string) (f : Z) :
  In (classifyTokenType hook f) ["BASE_APP"; "ZORA"; "HOOKED"; "STANDARD"].
Proof.
  unfold classifyTokenType.
  destruct (f =? 3000); [simpl; tauto |].
  destruct (f =? 10000); [simpl; tauto |].
  destruct (truthy hook && negb (hook =? "0x")%string)%bool; simpl; tauto.
Qed.

(** ** More on the upsert *)

Lemma upsert_conflicts_after (d : TokenData.t) (now : Z) (rows : list Row.t) :
  (forall a, same_address a a = true) ->
  existsb (fun r => same_address (Row.address r) (TokenData.address d)) (upsert d now rows) = true.
Proof.
  intros Hrefl. unfold upsert.
  destruct (existsb _ rows) eqn:E.
  - apply existsb_exists in E. destruct E as (r & Hin & Hk).
    apply existsb_exists.
    exists (if same_address (Row.address r) (TokenData.address d)
            then conflict_update now d r else r).
    split; [apply in_map_iff; exists r; split; [reflexivity | exact Hin] |].
    rewrite Hk. exact Hk.
  - rewrite existsb_app. cbn [existsb inserted_row Row.address].
    rewrite Hrefl. apply orb_true_r.
Qed.

Lemma upsert_unmatched_rows (d : TokenData.t) (now : Z) (rows : list Row.t) :
  existsb (fun r => same_address (Row.address r) (TokenData.address d)) rows = false ->
  map (fun r => if same_address (Row.address r) (TokenData.address d)
                then conflict_update now d r else r) rows = rows.
Proof.
  induction rows as [| r rest IH]; cbn [existsb map]; [reflexivity |].
  intros H. apply orb_false_iff in H. destruct H as [Hr Hrest].
  rewrite Hr, (IH Hrest). reflexivity.
Qed.

(** X10. The upsert of [saveToken] is idempotent and the last writer wins,
    provided an address is the same key as itself: saving the same data
    twice at one clock gives the table of the first save, and after two
    saves for one address (any data, any clocks) no row was added by the
    second, every row under that key carries the data of the second save and
    keeps its [detected_at], and every other row is as the first save left
    it. *)
Theorem upsert_last_writer_wins (d1 d2 : TokenData.t) (now1 now2 : Z) (rows : list Row.t) :
  (forall a, same_address a a = true) ->
  TokenData.address d2 = TokenData.address d1 ->
  upsert d1 now1 (upsert d1 now1 rows) = upsert d1 now1 rows
  /\ Forall2
       (fun first second =>
          Row.detected_at second = Row.detected_at first
          /\ Row.address second = Row.address first
          /\ (same_address (Row.address first) (TokenData.address d2) = true ->
              refreshed d2 now2 second)
          /\ (same_address (Row.address first) (TokenData.address d2) = false ->
              second = first))
       (upsert d1 now1 rows) (upsert d2 now2 (upsert d1 now1 rows)).
Proof.
  intros Hrefl Haddr. split.
  - unfold upsert at 1. rewrite (upsert_conflicts_after d1 now1 rows Hrefl).
    unfold upsert. destruct (existsb _ rows) eqn:E.
    + rewrite map_map. apply map_ext. intros r.
      destruct (same_address (Row.address r) (TokenData.address d1)) eqn:K.
      * cbn [conflict_update Row.address]. rewrite K. reflexivity.
      * rewrite K. reflexivity.
    + rewrite map_app, (upsert_unmatched_rows d1 now1 rows E).
      cbn [map inserted_row Row.address]. rewrite Hrefl. reflexivity.
  - unfold upsert at 2.
    replace (existsb (fun r => same_address (Row.address r) (TokenData.address d2))
                     (upsert d1 now1 rows)) with true
      by (rewrite Haddr; symmetry; apply upsert_conflicts_after; exact Hrefl).
    apply Forall2_map_same. intros r _.
    destruct (same_address (Row.address r) (TokenData.address d2)) eqn:K;
      unfold refreshed; cbn; repeat split; try reflexivity; discriminate.
Qed.

Lemma ForallOrdPairs_map_keys (f : Row.t -> Row.t) (rows : list Row.t) :
  (forall r, Row.address (f r) = Row.address r) ->
  keys_unique rows -> keys_unique (map f rows).
Proof.
  intros Hf. unfold keys_unique. induction 1 as [| r rest Hr Hrest IH]; cbn [map].
  - constructor.
  - constructor; [| exact IH]. apply Forall_forall. intros y Hy.
    apply in_map_iff in Hy. destruct Hy as (x & <- & Hx).
    rewrite !Hf. rewrite Forall_forall in Hr. apply Hr. exact Hx.
Qed.

Lemma keys_unique_snoc (r : Row.t) (rows : list Row.t) :
  keys_unique rows ->
  (forall x, In x rows -> same_address (Row.address x) (Row.address r) = false) ->
  keys_unique (rows ++ [r]).
Proof.
  unfold keys_unique. induction 1 as [| x rest Hx Hrest IH]; intros Hnew; cbn [app].
  - repeat constructor.
  - constructor.
    + apply Forall_app. split; [exact Hx |].
      constructor; [| constructor]. apply Hnew. left. reflexivity.
    + apply IH. intros y Hy. apply Hnew. right. exact Hy.
Qed.

Lemma keys_unique_filter (p : Row.t -> bool) (rows : list Row.t) :
  keys_unique rows -> keys_unique (filter p rows).
Proof.
  unfold keys_unique. induction 1 as [| x rest Hx Hrest IH]; cbn [filter].
  - constructor.
  - destruct (p x); [| exact IH]. constructor; [| exact IH].
    rewrite Forall_forall in *. intros y Hy. apply Hx.
    apply (proj1 (filter_In _ _ _)) in Hy. tauto.
Qed.

Lemma upsert_keeps_keys_unique (d : TokenData.t) (now : Z) (rows : list Row.t) :
  keys_unique rows -> keys_unique (upsert d now rows).
Proof.
  intros Hu. unfold upsert. destruct (existsb _ rows) eqn:E.
  - apply ForallOrdPairs_map_keys; [| exact Hu].
    intros r. destruct (same_address (Row.address r) (TokenData.address d)); reflexivity.
  - apply keys_unique_snoc; [exact Hu |]. intros x Hx.
    cbn [inserted_row Row.address].
    destruct (same_address (Row.address x) (TokenData.address d)) eqn:K; [| reflexivity].
    assert (existsb (fun r => same_address (Row.address r) (TokenData.address d)) rows = true)
      by (apply existsb_exists; exists x; split; assumption).
    congruence.
Qed.

(** ** Invariants of the scan cycle *)

Section TableInvariant.

Variable P : list Row.t -> Prop.
Hypothesis P_aging : forall now rows, P rows -> P (update_ages now rows).
Hypothesis P_expiry : forall now rows, P rows -> P (delete_old now rows).

Lemma processPoolEvent_keeps (log : PoolLog) (w : World) :
  P (tokens w) -> P (tokens (snd (processPoolEvent log w))).
Proof.
  intros HP. destruct (processPoolEvent_spec log w) as (w' & Run & _ & Tok & _).
  rewrite Run. cbn [snd]. rewrite Tok. exact HP.
Qed.

Lemma GET_keeps (w : World) : P (tokens w) -> P (tokens (snd (GET w))).
Proof.
  intros HP. destruct (GET_spec w) as (resp & w' & Run & _ & _ & _ & Tok).
  rewrite Run. cbn [snd].
  destruct Tok as [-> | [-> | ->]]; auto.
Qed.

End TableInvariant.

(** X11. One row per address key is an invariant of the whole scan cycle:
    if no two rows of the table share a key before [GET], none do after it,
    whatever events arrive and whichever calls fail. *)
Theorem scan_cycle_keeps_keys_unique (w : World) :
  keys_unique (tokens w) -> keys_unique (tokens (snd (GET w))).
Proof.
  apply GET_keeps.
  - intros now rows Hu. unfold update_ages. apply ForallOrdPairs_map_keys; [| exact Hu].
    intros r. destruct (fresh now r); reflexivity.
  - intros now rows Hu. apply keys_unique_filter. exact Hu.
Qed.

(** X12. The scan cycle keeps every row within the data model: if each row
    of the table has a score in [0, 30], the spiking flag [score >= 25], a
    symbol of at most 20 and a name of at most 100 characters before [GET],
    each row has them after it. *)
Theorem scan_cycle_keeps_rows_sound (w : World) :
  Forall sound_row (tokens w) -> Forall sound_row (tokens (snd (GET w))).
Proof.
  apply GET_keeps.
  - intros now rows Hs. unfold update_ages. rewrite Forall_forall in *.
    intros r Hr. apply in_map_iff in Hr. destruct Hr as (x & <- & Hx).
    specialize (Hs x Hx). destruct (fresh now x); exact Hs.
  - intros now rows Hs. unfold delete_old. rewrite Forall_forall in *.
    intros r Hr. apply (proj1 (filter_In _ _ _)) in Hr. apply Hs. tauto.
Qed.

Lemma no_faults_step (flags : list bool) :
  Forall (fun f => f = false) flags ->
  hd false flags = false /\ Forall (fun f => f = false) (tl flags).
Proof.
  intros H. destruct H as [| f rest Hf Hrest]; cbn [hd tl].
  - split; [reflexivity | constructor].
  - split; assumption.
Qed.

(** X13. A cycle in which no call fails does not answer with the scan
    summary either: aging, expiry and the head lookup go through, the fetch
    throws, and the answer is the cached body, whose tokens are the top 20
    of the aged and expired table and whose details carry the error of the
    fetch.  The cursor and the entropy are the ones before, no call that is
    left is going to fail, and the cycle after it answers the same way. *)
Theorem quiet_cycle_answers_cached (w : World) :
  no_faults w ->
  exists w',
    GET w = (Ret (Cached (select_top 20 (clock w) (tokens w')) TypeError (clock w)), w')
    /\ tokens w' = delete_old (clock w) (update_ages (clock w) (tokens w))
    /\ lastBlockProcessed w' = lastBlockProcessed w
    /\ entropy w' = entropy w
    /\ no_faults w'
    /\ exists w'',
         GET w' = (Ret (Cached (select_top 20 (clock w') (tokens w'')) TypeError (clock w')), w'')
         /\ lastBlockProcessed w'' = lastBlockProcessed w.
Proof.
  assert (Step : forall v, no_faults v ->
            exists v',
              GET v = (Ret (Cached (select_top 20 (clock v) (tokens v')) TypeError (clock v)), v')
              /\ tokens v' = delete_old (clock v) (update_ages (clock v) (tokens v))
              /\ lastBlockProcessed v' = lastBlockProcessed v
              /\ entropy v' = entropy v
              /\ no_faults v').
  { unfold no_faults. intros v Hq.
    destruct (no_faults_step _ Hq) as [F0 Hq1].
    destruct (no_faults_step _ Hq1) as [F1 Hq2].
    destruct (no_faults_step _ Hq2) as [F2 Hq3].
    destruct (no_faults_step _ Hq3) as [F3 Hq4].
    destruct (GET_quiet_run v F0 F1 F2 F3) as (v' & Run & Tok & Cur & Ent & Flt).
    exists v'. rewrite Flt. repeat split; assumption. }
  intros Hq. destruct (Step w Hq) as (w' & Run & Tok & Cur & Ent & Hq').
  exists w'. repeat split; try assumption.
  destruct (Step w' Hq') as (w'' & Run2 & _ & Cur2 & _).
  exists w''. split; [exact Run2 | congruence].
Qed.

(** ** More on the score *)

Lemma age_subscore_needs (a : number) :
  5 <= age_subscore a -> js_lt a (num 30) = true.
Proof.
  unfold age_subscore. intros H.
  destruct (js_lt a (num 5)) eqn:E5.
  { apply (js_lt_le_trans a (num 5) (num 30)); [exact E5 | reflexivity]. }
  destruct (js_lt a (num 15)) eqn:E15.
  { apply (js_lt_le_trans a (num 15) (num 30)); [exact E15 | reflexivity]. }
  destruct (js_lt a (num 30)); [reflexivity | lia].
Qed.

Lemma liquidity_subscore_needs (l : number) :
  5 <= liquidity_subscore l -> js_gt l (num 5000) = true.
Proof.
  unfold liquidity_subscore, js_gt. intros H.
  destruct (js_lt (num 20000) l) eqn:E1.
  { apply (js_le_lt_trans (num 5000) (num 20000) l); [reflexivity | exact E1]. }
  destruct (js_lt (num 10000) l) eqn:E2.
  { apply (js_le_lt_trans (num 5000) (num 10000) l); [reflexivity | exact E2]. }
  destruct (js_lt (num 5000) l); [reflexivity |].
  destruct (js_lt (num 2000) l); lia.
Qed.

Lemma momentum_subscore_needs (p : number) :
  5 <= momentum_subscore p -> js_gt p (num 25) = true.
Proof.
  unfold momentum_subscore, js_gt. intros H.
  destruct (js_lt (num 100) p) eqn:E1.
  { apply (js_le_lt_trans (num 25) (num 100) p); [reflexivity | exact E1]. }
  destruct (js_lt (num 50) p) eqn:E2.
  { apply (js_le_lt_trans (num 25) (num 50) p); [reflexivity | exact E2]. }
  destruct (js_lt (num 25) p); [reflexivity |].
  destruct (js_lt (num 10) p); lia.
Qed.

(** X15. What a spiking score takes: a score of 25 or more is only reached
    by a token younger than 30 minutes with liquidity above 5000 and a price
    change above 25; the full 30 is reached exactly by an age below 5
    minutes, liquidity above 20000 and a price change above 100. *)
Theorem spiking_score_requirements (m : Metrics) :
  (25 <= calculateTokenScore m ->
   js_lt (ageMinutes m) (num 30) = true
   /\ js_gt (liquidityUSD m) (num 5000) = true
   /\ js_gt (priceChangePercent m) (num 25) = true)
  /\ (calculateTokenScore m = 30 <->
      js_lt (ageMinutes m) (num 5) = true
      /\ js_gt (liquidityUSD m) (num 20000) = true
      /\ js_gt (priceChangePercent m) (num 100) = true).
Proof.
  destruct m as [a l p]. rewrite score_as_sum. cbn [ageMinutes liquidityUSD priceChangePercent].
  pose proof (age_subscore_range a) as Ha.
  pose proof (liquidity_subscore_range l) as Hl.
  pose proof (momentum_subscore_range p) as Hp.
  split.
  - intros H. split; [apply age_subscore_needs; lia |].
    split; [apply liquidity_subscore_needs; lia | apply momentum_subscore_needs; lia].
  - split.
    + intros H.
      assert (Ha10 : age_subscore a = 10) by lia.
      assert (Hl10 : liquidity_subscore l = 10) by lia.
      assert (Hp10 : momentum_subscore p = 10) by lia.
      unfold age_subscore in Ha10. unfold liquidity_subscore in Hl10.
      unfold momentum_subscore in Hp10.
      destruct (js_lt a (num 5)), (js_lt a (num 15)), (js_lt a (num 30));
        try discriminate Ha10;
      destruct (js_gt l (num 20000)), (js_gt l (num 10000)), (js_gt l (num 5000)),
        (js_gt l (num 2000)); try discriminate Hl10;
      destruct (js_gt p (num 100)), (js_gt p (num 50)), (js_gt p (num 25)),
        (js_gt p (num 10)); try discriminate Hp10; repeat split.
    + intros (Ea & El & Ep). unfold age_subscore, liquidity_subscore, momentum_subscore.
      rewrite Ea, El, Ep. reflexivity.
Qed.

(** X16. A metric that is not a number counts for nothing: with NaN as age,
    as liquidity or as price change the score is the sum of the other two
    sub-scores, and with all three NaN it is 0. *)
Theorem nan_metric_scores_zero (a l p : number) :
  calculateTokenScore (mkMetrics NaN l p) = liquidity_subscore l + momentum_subscore p
  /\ calculateTokenScore (mkMetrics a NaN p) = age_subscore a + momentum_subscore p
  /\ calculateTokenScore (mkMetrics a l NaN) = age_subscore a + liquidity_subscore l
  /\ calculateTokenScore (mkMetrics NaN NaN NaN) = 0.
Proof.
  rewrite !score_as_sum. cbn. repeat split; lia.
Qed.

(** ** The dashboard helpers *)

Lemma js_ge_num (z k : Z) : js_ge (num z) (num k) = true <-> k <= z.
Proof.
  unfold js_ge. rewrite js_le_true_iff. unfold num. rewrite <- Zle_Qle. tauto.
Qed.

(** X17. The score colours follow the spiking flag: for a row within the
    data model the score is shown green exactly when the row is flagged
    spiking, yellow exactly for scores 15 to 24 and red exactly below 15;
    the badge colour is green, yellow or red together with the text colour. *)
Theorem score_colour_matches_spiking_flag (r : Row.t) :
  sound_row r ->
  (getScoreColor (num (Row.score r)) = "text-green-400" <-> Row.is_spiking_now r = true)
  /\ (getScoreColor (num (Row.score r)) = "text-yellow-400" <-> 15 <= Row.score r < 25)
  /\ (getScoreColor (num (Row.score r)) = "text-red-400" <-> Row.score r < 15)
  /\ (getScoreBadgeColor (num (Row.score r))
        = "bg-green-500/20 text-green-400 border-green-500/30"
      <-> getScoreColor (num (Row.score r)) = "text-green-400")
  /\ (getScoreBadgeColor (num (Row.score r))
        = "bg-yellow-500/20 text-yellow-400 border-yellow-500/30"
      <-> getScoreColor (num (Row.score r)) = "text-yellow-400").
Proof.
  intros (_ & Hflag & _). rewrite Hflag, Z.leb_le.
  unfold getScoreColor, getScoreBadgeColor.
  destruct (js_ge (num (Row.score r)) (num 25)) eqn:E25;
    destruct (js_ge (num (Row.score r)) (num 15)) eqn:E15.
  all: try (apply js_ge_num in E25); try (apply js_ge_num in E15).
  all: try (assert (~ 25 <= Row.score r)
              by (intros C; apply js_ge_num in C; congruence)).
  all: try (assert (~ 15 <= Row.score r)
              by (intros C; apply js_ge_num in C; congruence)).
  all: repeat split; intros; try discriminate; try reflexivity; lia.
Qed.

Lemma substring_of_append (a rest : string) :
  substring 0 (String.length a) (a ++ rest) = a.
Proof.
  induction a as [| c a IH]; cbn [String.length append substring].
  - destruct rest; reflexivity.
  - rewrite IH. reflexivity.
Qed.

(** X18. The trade link carries the address verbatim: the characters of the
    URL from position 46 on, as many as the address has, are the address
    itself, so two addresses with the same link are the same address. *)
Theorem trade_url_carries_address (a b : string) :
  substring 46 (String.length a) (getUniswapTradeUrl a) = a
  /\ (getUniswapTradeUrl a = getUniswapTradeUrl b -> a = b).
Proof.
  assert (Hsub : forall s, substring 46 (String.length s) (getUniswapTradeUrl s) = s).
  { intros s. unfold getUniswapTradeUrl. cbn [append substring].
    apply substring_of_append. }
  split; [apply Hsub |].
  intros Heq. unfold getUniswapTradeUrl in Heq. cbn [append] in Heq.
  repeat match goal with
         | H : String _ _ = String _ _ |- _ => injection H as H
         end.
  revert b Heq. induction a as [| c a IH]; intros [| c' b] Heq; cbn [append] in Heq.
  - reflexivity.
  - exfalso. injection Heq as Hc Hrest.
    apply (f_equal String.length) in Hrest. cbn in Hrest.
    assert (forall x y, String.length (x ++ y) = (String.length x + String.length y)%nat) as L
      by (intros x y; induction x; cbn; [reflexivity | f_equal; assumption]).
    destruct b; cbn in Hrest; try rewrite L in Hrest; cbn in Hrest; lia.
  - exfalso. injection Heq as Hc Hrest.
    apply (f_equal String.length) in Hrest. cbn in Hrest.
    assert (forall x y, String.length (x ++ y) = (String.length x + String.length y)%nat) as L
      by (intros x y; induction x; cbn; [reflexivity | f_equal; assumption]).
    destruct a; cbn in Hrest; try rewrite L in Hrest; cbn in Hrest; lia.
  - injection Heq as -> Hrest. f_equal. apply IH. exact Hrest.
Qed.

(** ** The connection pool *)

(** X19. [Database.query] never leaks a client: whether the connect fails,
    the statement fails or both go through, the number of checked-out
    clients after the call is the number before it; the call resolves with
    rows exactly when neither step fails, and a failed connect skips the
    statement.  A client taken with [getClient] stays checked out. *)
Theorem query_never_leaks_a_client (p : Database.Pool) :
  Database.checkedOut (snd (Database.query p)) = Database.checkedOut p
  /\ (fst (Database.query p) = Database.Rows <->
      hd false (Database.flags p) = false
      /\ hd false (tl (Database.flags p)) = false)
  /\ (fst (Database.query p) = Database.ConnectFailed <->
      hd false (Database.flags p) = true)
  /\ (hd false (Database.flags p) = true ->
      Database.flags (snd (Database.query p)) = tl (Database.flags p))
  /\ (fst (Database.getClient p) = true ->
      Database.checkedOut (snd (Database.getClient p)) = S (Database.checkedOut p)).
Proof.
  unfold Database.query, Database.getClient, Database.connect, Database.client_query,
    Database.release.
  destruct (hd false (Database.flags p)) eqn:F1; cbn.
  - repeat split; intros; try discriminate; try reflexivity.
    destruct H; discriminate.
  - destruct (hd false (tl (Database.flags p))) eqn:F2; cbn;
      repeat split; intros; try discriminate; try reflexivity.
    destruct H; discriminate.
Qed.

(** ** The mock chart *)

Lemma js_max_finite (x y : Q) :
  exists c, js_max (Fin x) (Fin y) = Fin c
            /\ js_le (Fin x) (Fin c) = true /\ js_le (Fin y) (Fin c) = true
            /\ (c == x \/ c == y)%Q.
Proof.
  unfold js_max. destruct (js_lt (Fin x) (Fin y)) eqn:E.
  - exists y. apply js_lt_true_iff in E. rewrite !js_le_true_iff.
    repeat split; [apply Qlt_le_weak; exact E | apply Qle_refl | right; reflexivity].
  - exists x. rewrite !js_le_true_iff.
    repeat split; [apply Qle_refl | | left; reflexivity].
    apply Qnot_lt_le. intros C.
    apply (proj2 (js_lt_true_iff (Fin x) (Fin y))) in C. congruence.
Qed.

Lemma unit_draws_step (draws : list Q) :
  Forall (fun q => 0 <= q < 1)%Q draws ->
  (0 <= hd 0 draws < 1)%Q /\ Forall (fun q => 0 <= q < 1)%Q (tl draws).
Proof.
  intros H. destruct H as [| q rest Hq Hrest]; cbn [hd tl].
  - split; [split; [apply Qle_refl | reflexivity] | constructor].
  - split; assumption.
Qed.

Lemma chartLoop_spec (remaining : nat) :
  forall (i : Z) (c : Q) (data : list ChartPoint.t) (w : World),
  exists added w',
    chartLoop remaining i (Fin c) data w = (Ret (data ++ added)%list, w')
    /\ map ChartPoint.time added
       = map (fun k => (decimal (30 - (i + Z.of_nat k)) ++ "m")%string) (seq 0 remaining)
    /\ Forall (fun pt => js_le (Fin (1 # 10000)) (ChartPoint.price pt) = true
                         /\ js_le (num 5) (ChartPoint.liquidity pt) = true) added
    /\ (Forall (fun q => 0 <= q < 1)%Q (entropy w) ->
        Forall (fun pt => js_lt (ChartPoint.liquidity pt) (num 50) = true) added)
    /\ tokens w' = tokens w /\ faults w' = faults w
    /\ lastBlockProcessed w' = lastBlockProcessed w.
Proof.
  induction remaining as [| rest IH]; intros i c data w.
  - exists [], w. cbn [chartLoop ret]. rewrite app_nil_r.
    repeat split; constructor.
  - cbn [chartLoop]. cbv [bind random]. world_simpl.
    cbn [js_mul js_add js_sub js_neg num].
    destruct (js_max_finite
                (c * (inject_Z 1 + (hd 0%Q (entropy w) + - (2 # 5)) * (1 # 10)))
                (1 # 10000)) as (c' & -> & _ & Hfloor & _).
    destruct (js_max_finite (hd 0%Q (tl (entropy w)) * inject_Z 50) (inject_Z 5))
      as (l' & Hl & _ & Hl5 & Hlq).
    change (Fin (inject_Z 5)) with (num 5) in Hl, Hl5. rewrite Hl.
    match goal with
    | |- context [chartLoop rest (i + 1) (Fin c') ?d ?w2] =>
        destruct (IH (i + 1) c' d w2) as (added & w' & Run & Htimes & Hgood & Hlt & Ht & Hf & Hc)
    end.
    rewrite Run. rewrite <- app_assoc. cbn [app].
    eexists _, w'. split; [reflexivity |]. world_simpl.
    split; [| split; [| split; [| repeat split; assumption]]].
    + cbn [map seq ChartPoint.time]. rewrite Z.add_0_r. f_equal.
      rewrite Htimes, <- seq_shift, map_map. apply map_ext. intros k.
      do 2 f_equal. lia.
    + constructor; [| exact Hgood]. cbn [ChartPoint.price ChartPoint.liquidity].
      split; [exact Hfloor | exact Hl5].
    + intros Hunit. destruct (unit_draws_step _ Hunit) as [_ Hunit1].
      destruct (unit_draws_step _ Hunit1) as [[_ Hq2] Hunit2].
      constructor; [| apply Hlt; exact Hunit2].
      cbn [ChartPoint.liquidity]. apply js_lt_true_iff. unfold num.
      destruct Hlq as [-> | ->]; unfold inject_Z; lra.
Qed.

(** X20. [generateMockChartData] on a finite base price draws 30 points
    without touching the store: their labels run "1m", "2m", ... "30m" (the
    point generated last comes first), no price is below 0.0001 and no
    liquidity below 5; and with [Math.random()] in [0, 1) every liquidity is
    below 50. *)
Theorem mock_chart_shape (basePrice : Q) (w : World) :
  exists data w',
    generateMockChartData (Fin basePrice) w = (Ret data, w')
    /\ map ChartPoint.time data
       = map (fun k => (decimal (Z.of_nat k) ++ "m")%string) (seq 1 30)
    /\ Forall (fun pt => js_le (Fin (1 # 10000)) (ChartPoint.price pt) = true
                         /\ js_le (num 5) (ChartPoint.liquidity pt) = true) data
    /\ (Forall (fun q => 0 <= q < 1)%Q (entropy w) ->
        Forall (fun pt => js_lt (ChartPoint.liquidity pt) (num 50) = true) data)
    /\ tokens w' = tokens w /\ faults w' = faults w
    /\ lastBlockProcessed w' = lastBlockProcessed w.
Proof.
  unfold generateMockChartData, bind. cbn [js_mul].
  destruct (chartLoop_spec 30 0 (basePrice * (1 # 2)) [] w)
    as (added & w' & Run & Htimes & Hgood & Hlt & Ht & Hf & Hc).
  rewrite Run. cbn [app ret]. exists (rev added), w'.
  split; [reflexivity |]. split; [| split; [| split; [| repeat split; assumption]]].
  - rewrite map_rev, Htimes. reflexivity.
  - apply Forall_rev. exact Hgood.
  - intros Hunit. apply Forall_rev. apply Hlt. exact Hunit.
Qed.

(** ** Saving and listing *)

(** X21. Insert, then list: when [saveToken] and the following
    [getTopTokens] both go through, no row held the address key and fewer
    than [limit] rows were fresh, the list contains the new row: the
    address and data of the save, the stored tag (or UNKNOWN), age as given,
    detected and updated at the clock. *)
Theorem saved_token_is_listed (d : TokenData.t) (limit : nat) (w : World) :
  hd false (faults w) = false ->
  hd false (tl (faults w)) = false ->
  existsb (fun r => same_address (Row.address r) (TokenData.address d)) (tokens w) = false ->
  (List.length (filter (fresh (clock w)) (tokens w)) < limit)%nat ->
  exists rows w',
    (saveToken d ;; getTopTokens limit) w = (Ret rows, w')
    /\ tokens w' = (tokens w ++ [inserted_row (clock w) d])%list
    /\ In (inserted_row (clock w) d) rows
    /\ Row.address (inserted_row (clock w) d) = TokenData.address d
    /\ Row.score (inserted_row (clock w) d) = TokenData.score d
    /\ Row.token_type (inserted_row (clock w) d) = tokenType_or_unknown (TokenData.tokenType d)
    /\ Row.detected_at (inserted_row (clock w) d) = clock w.
Proof.
  intros F1 F2 Hnone Hfew.
  cbv [bind saveToken db_execute getTopTokens db_select external_call].
  rewrite F1. world_simpl. rewrite F2. world_simpl.
  eexists _, _. split; [reflexivity |]. world_simpl.
  unfold upsert. rewrite Hnone.
  split; [reflexivity |]. split; [| repeat split].
  apply fresh_row_is_visible.
  - rewrite filter_app, length_app. cbn [filter].
    destruct (fresh (clock w) (inserted_row (clock w) d)); cbn [List.length]; lia.
  - apply in_or_app. right. left. reflexivity.
  - unfold fresh, two_hours. cbn [inserted_row Row.detected_at]. apply Z.ltb_lt. lia.
Qed.

(** X22. The update path does not bring a token back: when every row under
    the address key was detected two hours ago or earlier, [saveToken]'s
    upsert leaves the answer of the top-N query as it was (the refreshed row
    stays hidden), and the rows that an expiry at that clock removes are
    removed just the same. *)
Theorem refreshed_stale_row_stays_hidden (d : TokenData.t) (limit : nat) (now : Z)
    (rows : list Row.t) :
  existsb (fun r => same_address (Row.address r) (TokenData.address d)) rows = true ->
  (forall r, In r rows -> same_address (Row.address r) (TokenData.address d) = true ->
             Row.detected_at r <= now - two_hours) ->
  select_top limit now (upsert d now rows) = select_top limit now rows
  /\ map Row.address (delete_old now (upsert d now rows))
     = map Row.address (delete_old now rows).
Proof.
  intros Hconflict Hstale. unfold upsert. rewrite Hconflict. split.
  - unfold select_top. f_equal. f_equal. clear Hconflict.
    induction rows as [| r rest IH]; [reflexivity |].
    cbn [map filter].
    rewrite IH by (intros x Hx; apply Hstale; right; exact Hx).
    destruct (same_address (Row.address r) (TokenData.address d)) eqn:K; [| reflexivity].
    assert (Hr : fresh now r = false)
      by (unfold fresh; apply Z.ltb_ge; apply Hstale; [left; reflexivity | exact K]).
    replace (fresh now (conflict_update now d r)) with (fresh now r) by reflexivity.
    rewrite Hr. reflexivity.
  - unfold delete_old. clear Hconflict Hstale.
    induction rows as [| r rest IH]; [reflexivity |].
    cbn [map filter].
    destruct (same_address (Row.address r) (TokenData.address d));
      cbn [conflict_update Row.detected_at];
      destruct (negb (Row.detected_at r <? now - four_hours)); cbn [map];
      rewrite ?IH; reflexivity.
Qed.

End Pipeline.

(** * The statements at work on the sample data *)

(** An event for a token whose three reads would all answer, in a world
    where no call fails: no metadata, no record. *)
Example sample_event_is_not_recorded :
  getTokenMetadata TOKEN_LOWER (sample_world [] [] 100 150 TOKEN_LOWER)
  = (Ret None, sample_world [] [] 100 150 TOKEN_LOWER)
  /\ fst (processPoolEvent exact_key (pool_of TOKEN_LOWER)
            (sample_world [] [] 100 150 TOKEN_LOWER)) = Ret false
  /\ tokens (snd (processPoolEvent exact_key (pool_of TOKEN_LOWER)
                    (sample_world [] [] 100 150 TOKEN_LOWER))) = [].
Proof. repeat split. Qed.

(** C9, as first stated, fails: ageing a token from 0 to 30 minutes with
    nothing else changed takes the score from 10 down to 0. *)
Lemma score_not_monotone_in_age :
  ~ (forall a a' l p, js_le a a' = true ->
       calculateTokenScore (mkMetrics a l p) <= calculateTokenScore (mkMetrics a' l p)).
Proof.
  intros H. specialize (H (num 0) (num 30) (num 0) (num 0) eq_refl).
  vm_compute in H. apply H. reflexivity.
Qed.

Lemma calculateTokenScore_monotonicity_witness :
  calculateTokenScore (mkMetrics (num 30) (num 0) (num 0))
    <= calculateTokenScore (mkMetrics (num 0) (num 0) (num 0))
  /\ calculateTokenScore (mkMetrics (num 0) (num 5000) (num 0))
       <= calculateTokenScore (mkMetrics (num 0) (num 5001) (num 0))
  /\ calculateTokenScore (mkMetrics (num 0) (num 0) (num 10))
       <= calculateTokenScore (mkMetrics (num 0) (num 0) PosInf).
Proof.
  destruct calculateTokenScore_monotonicity as (Hage & Hliq & Hmom).
  split; [| split].
  - apply (Hage (num 0) (num 30)). reflexivity.
  - apply (Hliq (num 0) (num 5000) (num 5001)). reflexivity.
  - apply (Hmom (num 0) (num 0) (num 10) PosInf). reflexivity.
Defined.

(** The token whose symbol read answers while its name and decimals reads
    reject: the fallbacks would give the first record, the answer is [null]. *)
Example half_read_token_gets_no_metadata :
  gathered (sample_contracts TOKEN_HALF_READ) = TokenMetadata.mk "Unknown Token" "TST" 18
  /\ within_bounds (gathered (sample_contracts TOKEN_HALF_READ)) = true
  /\ getTokenMetadata TOKEN_HALF_READ (sample_world [] [] 100 150 TOKEN_HALF_READ)
     = (Ret None, sample_world [] [] 100 150 TOKEN_HALF_READ).
Proof. repeat split. Qed.

Lemma invalid_metadata_is_discarded_witness :
  getTokenMetadata (candidate (pool_of TOKEN_LONG_SYMBOL))
                   (sample_world [] [] 100 150 TOKEN_LONG_SYMBOL)
  = (Ret None, sample_world [] [] 100 150 TOKEN_LONG_SYMBOL)
  /\ exists w',
       processPoolEvent exact_key (pool_of TOKEN_LONG_SYMBOL)
                        (sample_world [] [] 100 150 TOKEN_LONG_SYMBOL) = (Ret false, w')
       /\ tokens w' = tokens (sample_world [] [] 100 150 TOKEN_LONG_SYMBOL).
Proof.
  apply (invalid_metadata_is_discarded exact_key (pool_of TOKEN_LONG_SYMBOL)
           (sample_world [] [] 100 150 TOKEN_LONG_SYMBOL)).
  left. vm_compute. lia.
Defined.

(** The table holds a row for the address in upper case, detected three
    hours ago and so no longer returned by the dedup query; the event for the
    same address in lower case is discarded all the same. *)
Lemma known_address_is_not_recorded_twice_witness :
  duplicate (pool_of TOKEN_LOWER) (sample_world [row_of_age 10800] [] 100 150 TOKEN_LOWER)
  = false
  /\ exists w',
       processPoolEvent exact_key (pool_of TOKEN_LOWER)
                        (sample_world [row_of_age 10800] [] 100 150 TOKEN_LOWER)
       = (Ret false, w')
       /\ tokens w' = [row_of_age 10800].
Proof.
  split; [vm_compute; reflexivity |].
  destruct (known_address_is_not_recorded_twice exact_key (pool_of TOKEN_LOWER)
              (sample_world [row_of_age 10800] [] 100 150 TOKEN_LOWER) (row_of_age 10800))
    as (w' & Run & Tok & _).
  - left. reflexivity.
  - vm_compute. reflexivity.
  - exists w'. split; [exact Run | exact Tok].
Defined.

(** The same event against a row detected ten minutes ago, which the dedup
    query returns. *)
Example visible_duplicate_on_sample :
  duplicate (pool_of TOKEN_LOWER) (sample_world [row_of_age 600] [] 100 150 TOKEN_LOWER)
  = true
  /\ fst (processPoolEvent exact_key (pool_of TOKEN_LOWER)
            (sample_world [row_of_age 600] [] 100 150 TOKEN_LOWER)) = Ret false
  /\ tokens (snd (processPoolEvent exact_key (pool_of TOKEN_LOWER)
                    (sample_world [row_of_age 600] [] 100 150 TOKEN_LOWER)))
     = [row_of_age 600].
Proof. repeat split; vm_compute; reflexivity. Qed.

(** Two cycles in a row with nothing failing, one event waiting in block
    120: both answer with the cached body, and the cursor stays where it
    was. *)
Example successive_cycles :
  fst (GET exact_key (sample_world [] [] 100 150 TOKEN_LOWER))
  = Ret (Cached [] TypeError sample_now)
  /\ lastBlockProcessed (snd (GET exact_key (sample_world [] [] 100 150 TOKEN_LOWER))) = 100
  /\ fst (GET exact_key (snd (GET exact_key (sample_world [] [] 100 150 TOKEN_LOWER))))
     = Ret (Cached [] TypeError sample_now)
  /\ lastBlockProcessed
       (snd (GET exact_key (snd (GET exact_key (sample_world [] [] 100 150 TOKEN_LOWER)))))
     = 100.
Proof. repeat split; vm_compute; reflexivity. Qed.


(** A set cursor and a head equal to it. *)
Example empty_range_on_sample :
  fst (GET exact_key (sample_world [] [] 150 150 TOKEN_LOWER))
  = Ret (Cached [] TypeError sample_now)
  /\ lastBlockProcessed (snd (GET exact_key (sample_world [] [] 150 150 TOKEN_LOWER))) = 150.
Proof. split; vm_compute; reflexivity. Qed.

Lemma Forall2_singleton {A B : Type} (R : A -> B -> Prop) (a : A) (l : list B) :
  Forall2 R [a] l -> exists b, l = [b] /\ R a b.
Proof.
  intros H. inversion H as [| x b xs bs Hab Hrest]; subst.
  inversion Hrest; subst. exists b. split; [reflexivity | exact Hab].
Qed.

Lemma saveToken_keeps_detected_at_witness :
  exists out w',
    saveToken exact_key sample_data (sample_world [row_of_age 10800] [] 100 150 TOKEN_LOWER)
    = (out, w')
    /\ out = Ret tt
    /\ map Row.detected_at (tokens w') = [sample_now - 10800]
    /\ map Row.score (tokens w') = [26]
    /\ map Row.last_updated (tokens w') = [sample_now].
Proof.
  destruct (saveToken_keeps_detected_at exact_key sample_data
              (sample_world [row_of_age 10800] [] 100 150 TOKEN_LOWER) eq_refl)
    as (out & w' & Run & Hout & Hrows).
  exists out, w'. split; [exact Run |]. split; [exact Hout |].
  cbn [tokens sample_world] in Hrows.
  destruct (Forall2_singleton _ _ _ Hrows) as (new & Hnews & Hrow).
  destruct Hrow as (Hd & _ & _ & _ & _ & _ & Hnew & _).
  destruct (Hnew Hout eq_refl) as (Hscore & _ & _ & _ & _ & Hupd & _).
  rewrite Hnews. cbn [map]. rewrite Hd, Hscore, Hupd. repeat split.
Defined.

(** * The further statements at work on the sample data *)

Lemma select_top_keeps_all_when_few_witness :
  Permutation (select_top 100 sample_now [row_of_age 600; row_of_age 10800; row_of_age 60])
              (filter (fresh sample_now) [row_of_age 600; row_of_age 10800; row_of_age 60]).
Proof.
  apply (select_top_keeps_all_when_few 100 sample_now
           [row_of_age 600; row_of_age 10800; row_of_age 60]).
  simpl. lia.
Defined.

Lemma irrelevant_event_costs_nothing_witness :
  processPoolEvent exact_key (mkPoolLog 120 "0x01" TOKEN_LOWER TOKEN_HALF_READ 500 "0x")
                   (sample_world [] [true; true] 100 150 TOKEN_LOWER)
  = (Ret false, sample_world [] [true; true] 100 150 TOKEN_LOWER).
Proof.
  apply (irrelevant_event_costs_nothing exact_key
           (mkPoolLog 120 "0x01" TOKEN_LOWER TOKEN_HALF_READ 500 "0x")
           (sample_world [] [true; true] 100 150 TOKEN_LOWER)); simpl; discriminate.
Defined.

Lemma upsert_last_writer_wins_witness :
  upsert exact_key sample_data sample_now
         (upsert exact_key sample_data sample_now [row_of_age 10800])
  = upsert exact_key sample_data sample_now [row_of_age 10800].
Proof.
  apply (upsert_last_writer_wins exact_key sample_data sample_data sample_now sample_now
           [row_of_age 10800]).
  - exact String.eqb_refl.
  - reflexivity.
Defined.

Lemma scan_cycle_keeps_keys_unique_witness :
  keys_unique exact_key
    (tokens (snd (GET exact_key (sample_world [row_of_age 10800] [] 100 150 TOKEN_LOWER)))).
Proof.
  apply (scan_cycle_keeps_keys_unique exact_key
           (sample_world [row_of_age 10800] [] 100 150 TOKEN_LOWER)).
  repeat constructor.
Defined.

Lemma scan_cycle_keeps_rows_sound_witness :
  Forall sound_row
    (tokens (snd (GET exact_key (sample_world [row_of_age 600] [] 100 150 TOKEN_LOWER)))).
Proof.
  apply (scan_cycle_keeps_rows_sound exact_key
           (sample_world [row_of_age 600] [] 100 150 TOKEN_LOWER)).
  repeat constructor; simpl; lia.
Defined.

Lemma quiet_cycle_answers_cached_witness :
  exists w',
    GET exact_key (sample_world [row_of_age 600] [] 100 150 TOKEN_LOWER)
    = (Ret (Cached (select_top 20 sample_now (tokens w')) TypeError sample_now), w')
    /\ lastBlockProcessed w' = 100.
Proof.
  destruct (quiet_cycle_answers_cached exact_key
              (sample_world [row_of_age 600] [] 100 150 TOKEN_LOWER))
    as (w' & Run & _ & Hcursor & _).
  - constructor.
  - exists w'. split; [exact Run | exact Hcursor].
Defined.

Lemma score_colour_matches_spiking_flag_witness :
  getScoreColor (num (Row.score (row_of_age 600))) = "text-yellow-400"
  <-> 15 <= Row.score (row_of_age 600) < 25.
Proof.
  destruct (score_colour_matches_spiking_flag (row_of_age 600)) as (_ & Hyellow & _).
  - repeat split; simpl; lia.
  - exact Hyellow.
Defined.

Lemma saved_token_is_listed_witness :
  exists rows w',
    bind (saveToken exact_key sample_data) (fun _ => getTopTokens 20)
         (sample_world [] [] 100 150 TOKEN_LOWER) = (Ret rows, w')
    /\ In (inserted_row sample_now sample_data) rows.
Proof.
  destruct (saved_token_is_listed exact_key sample_data 20
              (sample_world [] [] 100 150 TOKEN_LOWER))
    as (rows & w' & Run & _ & Hin & _).
  - reflexivity.
  - reflexivity.
  - reflexivity.
  - simpl. lia.
  - exists rows, w'. split; [exact Run | exact Hin].
Defined.

Lemma refreshed_stale_row_stays_hidden_witness :
  select_top 20 sample_now (upsert exact_key sample_data sample_now [row_of_age 10800])
  = select_top 20 sample_now [row_of_age 10800].
Proof.
  apply (refreshed_stale_row_stays_hidden exact_key sample_data 20 sample_now
           [row_of_age 10800]).
  - reflexivity.
  - intros r [<- | []] _. vm_compute. discriminate.
Defined.
